(** * PnP Launchpad: status classification, ordering, enrichment, watchlist

    A shallow embedding of [assets/app.js] (the current revision: the one
    with [projectIsJustLaunched], [countdownChip] and the watchlist) and
    the properties its specification states about it, followed by further
    properties of the same code: paths and HTML text, day arithmetic, the
    other comparators, the rest of the watchlist, badges, and how the
    earlier revision held in the same file (module [Rev1]) relates to the
    current one.

    Conventions of the embedding.
    - A JavaScript string is the list of its UTF-16 code units ([list N]).
    - A JavaScript value read from the content snapshot is a [JsVal]; a
      property that is missing reads as [JUndefined].
    - A [Date] object is its time value: milliseconds since the epoch, or
      [None] for the NaN of an Invalid Date.  The same [option Z] is used
      for the numbers computed from time values ([None] is NaN).
    - What the language leaves to the host (the local time zone,
      [Date.parse] on free text, the Unicode tables, number formatting,
      the JSON codec) is the interface [JsHost]. *)

From Stdlib Require Import ZArith NArith List String Ascii Bool Lia DecimalString.
From Stdlib Require Import Sorting.Sorted Sorting.Permutation.
From stdpp Require Import base option list numbers gmap.

Local Open Scope Z_scope.

(** ** Strings as code-unit lists *)

Abbreviation jsstring := (list N) (only parsing).

Fixpoint str (s : string) : list N :=
  match s with
  | EmptyString => []
  | String a r => N_of_ascii a :: str r
  end.

Definition isDigit (c : N) : bool := ((48 <=? c) && (c <=? 57))%N.
Definition isLowerAlpha (c : N) : bool := ((97 <=? c) && (c <=? 122))%N.
Definition isUpperAlpha (c : N) : bool := ((65 <=? c) && (c <=? 90))%N.
Definition isAscii (c : N) : bool := (c <? 128)%N.

Definition asciiLower (c : N) : N := if isUpperAlpha c then (c + 32)%N else c.

(** Code units of the characters the source names. *)
Definition HYPHEN : N := 45.
Definition COMMA : N := 44.
Definition DQUOTE : N := 34.

(** Value of a run of decimal digits, as [Number("0042")] reads it. *)
Definition digitVal (c : N) : Z := Z.of_N c - 48.

Definition Number_digits (ds : list N) : Z :=
  fold_left (fun acc c => 10 * acc + digitVal c) ds 0.

(** Decimal text of an integer, as [String(n)] prints an integral
    Number of magnitude below 1e21. *)
Definition Number_toString (z : Z) : list N :=
  str (NilZero.string_of_int (Z.to_int z)).

(** ** Values of the content snapshot *)

#[warnings="-register-all"]
Inductive JsVal (Num : Type) : Type :=
| JUndefined
| JNull
| JBool (b : bool)
| JNum (n : Num)
| JStr (s : list N)
| JArr (elems : list (JsVal Num))
| JObj (props : list (list N * JsVal Num)).

Arguments JUndefined {Num}.
Arguments JNull {Num}.
Arguments JBool {Num} b.
Arguments JNum {Num} n.
Arguments JStr {Num} s.
Arguments JArr {Num} elems.
Arguments JObj {Num} props.

(** ** Time arithmetic of ECMA-262 (section "Time Values and Time Range") *)

Definition msPerDay : Z := 24 * 60 * 60 * 1000.
Definition msPerHour : Z := 3600000.
Definition msPerMinute : Z := 60000.
Definition msPerSecond : Z := 1000.

Definition Day (t : Z) : Z := t / msPerDay.
Definition TimeWithinDay (t : Z) : Z := t mod msPerDay.

Definition DaysInYear (y : Z) : Z :=
  if negb (y mod 4 =? 0) then 365
  else if negb (y mod 100 =? 0) then 366
  else if negb (y mod 400 =? 0) then 365
  else 366.

Definition DayFromYear (y : Z) : Z :=
  365 * (y - 1970) + (y - 1969) / 4 - (y - 1901) / 100 + (y - 1601) / 400.

Definition InLeapYear_of (y : Z) : Z := if DaysInYear y =? 366 then 1 else 0.

(** The largest year whose first day is not after [day]: a first guess
    from the mean length of a year, corrected by at most one. *)
Definition YearFromDay (day : Z) : Z :=
  let y := 1970 + (day * 400) / 146097 in
  if day <? DayFromYear y then y - 1
  else if DayFromYear (y + 1) <=? day then y + 1
  else y.

Definition YearFromTime (t : Z) : Z := YearFromDay (Day t).

Definition DayWithinYear (t : Z) : Z := Day t - DayFromYear (YearFromTime t).

Definition InLeapYear (t : Z) : Z := InLeapYear_of (YearFromTime t).

(** Day within the year on which month [m] (0 = January) starts. *)
Definition monthStart (m leap : Z) : Z :=
  match m with
  | 0 => 0
  | 1 => 31
  | 2 => 59 + leap
  | 3 => 90 + leap
  | 4 => 120 + leap
  | 5 => 151 + leap
  | 6 => 181 + leap
  | 7 => 212 + leap
  | 8 => 243 + leap
  | 9 => 273 + leap
  | 10 => 304 + leap
  | _ => 334 + leap
  end.

Definition MonthFromTime (t : Z) : Z :=
  let d := DayWithinYear t in
  let leap := InLeapYear t in
  if d <? 31 then 0
  else if d <? 59 + leap then 1
  else if d <? 90 + leap then 2
  else if d <? 120 + leap then 3
  else if d <? 151 + leap then 4
  else if d <? 181 + leap then 5
  else if d <? 212 + leap then 6
  else if d <? 243 + leap then 7
  else if d <? 273 + leap then 8
  else if d <? 304 + leap then 9
  else if d <? 334 + leap then 10
  else 11.

Definition DateFromTime (t : Z) : Z :=
  DayWithinYear t - monthStart (MonthFromTime t) (InLeapYear t) + 1.

Definition DaysInMonth (m leap : Z) : Z :=
  match m with
  | 1 => 28 + leap
  | 3 | 5 | 8 | 10 => 30
  | _ => 31
  end.

Definition MakeTime (hour min sec ms : Z) : Z :=
  hour * msPerHour + min * msPerMinute + sec * msPerSecond + ms.

(** [MakeDay]: the day number of the first of month [month mod 12] in year
    [year + month / 12], moved by [date - 1] days. *)
Definition MakeDay (year month date : Z) : Z :=
  let ym := year + month / 12 in
  let mn := month mod 12 in
  DayFromYear ym + monthStart mn (InLeapYear_of ym) + date - 1.

Definition MakeDate (day time : Z) : Z := day * msPerDay + time.

Definition maxTime : Z := 8640000000000000.

Definition TimeClip (t : Z) : option Z :=
  if Z.abs t <=? maxTime then Some t else None.

(** Two-digit years given to the [Date] constructor mean 19xx. *)
Definition MakeFullYear (y : Z) : Z :=
  if (0 <=? y) && (y <=? 99) then 1900 + y else y.

(** ** The host environment *)

Class JsHost := {
  (** IEEE doubles, through the three conversions the program applies
      to a number of the snapshot. *)
  Num : Type;
  numToBoolean : Num -> bool;
  numToString : Num -> list N;
  (** [new Date(n)]: [TimeClip(ToNumber(n))]. *)
  numToTimeValue : Num -> option Z;
  (** [Date.parse] on a string; used for text that is not an ISO day. *)
  Date_parse : list N -> option Z;
  (** Offset of local time from UTC in milliseconds (a zone without
      daylight-saving transitions). *)
  LocalTZA : Z;
  (** [String.prototype.toLowerCase] and [normalize('NFKD')]. *)
  toLowerCase : list N -> list N;
  normalizeNFKD : list N -> list N;
  (** [JSON.parse] ([None]: it throws) and [JSON.stringify]. *)
  JSON_parse : list N -> option (JsVal Num);
  JSON_stringify : JsVal Num -> list N
}.

(** What the language standard and Unicode guarantee of every host. *)
Class JsHostLaws (host : JsHost) : Prop := {
  (** Zone offsets are shorter than a day. *)
  LocalTZA_bound : - msPerDay < LocalTZA < msPerDay;
  (** On ASCII text, lower-casing is the ASCII case map and NFKD
      normalization changes nothing. *)
  toLowerCase_ascii :
    forall s, forallb isAscii s = true -> toLowerCase s = map asciiLower s;
  normalizeNFKD_ascii :
    forall s, forallb isAscii s = true -> normalizeNFKD s = s;
  (** The JSON text of an array is not empty, and an array of strings
      survives [JSON.parse(JSON.stringify(..))]. *)
  JSON_stringify_array :
    forall elems, JSON_stringify (JArr elems) <> [];
  JSON_roundtrip :
    forall l : list (list N),
      JSON_parse (JSON_stringify (JArr (map JStr l))) = Some (JArr (map JStr l))
}.

Abbreviation Val := (JsVal Num).

Abbreviation Date := (option Z) (only parsing).

Fixpoint strEq (a b : list N) : bool :=
  match a, b with
  | [], [] => true
  | x :: a', y :: b' => (x =? y)%N && strEq a' b'
  | _, _ => false
  end.

Definition includes (l : list (list N)) (s : list N) : bool :=
  existsb (strEq s) l.

(** [String.prototype.trim]: strips white space and line terminators. *)
Definition isWhiteSpace (c : N) : bool :=
  (((9 <=? c) && (c <=? 13)) || (c =? 32) || (c =? 160) || (c =? 5760)
   || ((8192 <=? c) && (c <=? 8202)) || (c =? 8232) || (c =? 8233)
   || (c =? 8239) || (c =? 8287) || (c =? 12288) || (c =? 65279))%N.

Fixpoint dropWhile {A} (f : A -> bool) (l : list A) : list A :=
  match l with
  | [] => []
  | x :: r => if f x then dropWhile f r else l
  end.

Definition trimEnds (f : N -> bool) (s : list N) : list N :=
  rev (dropWhile f (rev (dropWhile f s))).

Definition trim (s : list N) : list N := trimEnds isWhiteSpace s.

(** [s.split(sep)] for a one-unit separator: never the empty list. *)
Fixpoint split (sep : N) (s : list N) : list (list N) :=
  match s with
  | [] => [[]]
  | c :: r =>
      if (c =? sep)%N then [] :: split sep r
      else match split sep r with
           | h :: t => (c :: h) :: t
           | [] => [[c]]
           end
  end.

(** [l.join(sep)] on strings *)
Definition join (sep : list N) (l : list (list N)) : list N :=
  match l with
  | [] => []
  | x :: r => x ++ flat_map (fun y => sep ++ y) r
  end.

(** [l.indexOf(s)] on strings: [None] stands for -1. *)
Fixpoint indexOf (l : list (list N)) (s : list N) : option nat :=
  match l with
  | [] => None
  | x :: r => if strEq x s then Some O else S <$> indexOf r s
  end.

(** [Array.prototype.sort(comparefn)]: a stable sort; a comparator
    result [v] puts the second argument first when [v > 0], and NaN
    counts as 0.  Modelled by stable insertion. *)
Definition comesAfter (v : option Z) : bool :=
  match v with Some x => 0 <? x | None => false end.

(** [x] may stay before [y]: the comparator does not ask for a swap. *)
Definition precedes {A} (cmp : A -> A -> option Z) (x y : A) : Prop :=
  comesAfter (cmp x y) = false.

Fixpoint insertBy {A} (cmp : A -> A -> option Z) (x : A) (l : list A) : list A :=
  match l with
  | [] => [x]
  | y :: r => if comesAfter (cmp y x) then x :: l else y :: insertBy cmp x r
  end.

Definition Array_sort {A} (cmp : A -> A -> option Z) (l : list A) : list A :=
  fold_left (fun acc x => insertBy cmp x acc) l [].

(** ** A reference host

    Integral numbers, the zone UTC+01:00, ASCII case mapping, no
    free-text date format, and the JSON text of arrays of strings (what
    the watchlist writes).  It instantiates the interface on concrete
    inputs. *)

Module RefHost.

Definition hexDigit (n : N) : N := (if n <? 10 then 48 + n else 87 + n)%N.

Definition hexVal (c : N) : option N :=
  (if isDigit c then Some (c - 48)
   else if (97 <=? c) && (c <=? 102) then Some (c - 87)
   else if (65 <=? c) && (c <=? 70) then Some (c - 55)
   else None)%N.

(** [QuoteJSONString], one code unit at a time. *)
Definition escapeUnit (c : N) : list N :=
  (if c =? 34 then [92; 34]
   else if c =? 92 then [92; 92]
   else if c =? 8 then [92; 98]
   else if c =? 9 then [92; 116]
   else if c =? 10 then [92; 110]
   else if c =? 12 then [92; 102]
   else if c =? 13 then [92; 114]
   else if c <? 32 then [92; 117; 48; 48; hexDigit (c / 16); hexDigit (c mod 16)]
   else [c])%N.

Definition quote (s : list N) : list N :=
  DQUOTE :: flat_map escapeUnit s ++ [DQUOTE].

(** The program writes arrays of strings only; an object is written
    without its properties. *)
Fixpoint stringify (v : JsVal Z) : list N :=
  match v with
  | JUndefined | JNull => str "null"
  | JBool true => str "true"
  | JBool false => str "false"
  | JNum n => Number_toString n
  | JStr s => quote s
  | JArr elems => 91%N :: join [COMMA] (map stringify elems) ++ [93%N]
  | JObj _ => str "{}"
  end.

(** A one-pass reader of [ "..." , "..." ] texts without white space. *)
Inductive Mode :=
| Start | AfterOpen | InStr | Esc | Hex (todo : nat) (acc : N)
| AfterStr | AfterComma | Done.

Definition unescape (e : N) : option N :=
  (if e =? 34 then Some 34
   else if e =? 92 then Some 92
   else if e =? 47 then Some 47
   else if e =? 98 then Some 8
   else if e =? 102 then Some 12
   else if e =? 110 then Some 10
   else if e =? 114 then Some 13
   else if e =? 116 then Some 9
   else None)%N.

(** [cur]: the string being read, reversed; [items]: the strings read,
    reversed. *)
Fixpoint run (m : Mode) (cur : list N) (items : list (list N)) (s : list N)
  : option (list (list N)) :=
  match s with
  | [] => match m with Done => Some (rev items) | _ => None end
  | c :: r =>
      match m with
      | Start => if (c =? 91)%N then run AfterOpen [] items r else None
      | AfterOpen =>
          if (c =? 93)%N then run Done [] items r
          else if (c =? 34)%N then run InStr [] items r
          else None
      | InStr =>
          if (c =? 34)%N then run AfterStr [] (rev cur :: items) r
          else if (c =? 92)%N then run Esc cur items r
          else if (c <? 32)%N then None
          else run InStr (c :: cur) items r
      | Esc =>
          if (c =? 117)%N then run (Hex 4 0%N) cur items r
          else match unescape c with
               | Some u => run InStr (u :: cur) items r
               | None => None
               end
      | Hex todo acc =>
          match hexVal c with
          | Some h =>
              let acc' := (16 * acc + h)%N in
              match todo with
              | 1%nat => run InStr (acc' :: cur) items r
              | S n => run (Hex n acc') cur items r
              | O => None
              end
          | None => None
          end
      | AfterStr =>
          if (c =? 93)%N then run Done [] items r
          else if (c =? 44)%N then run AfterComma [] items r
          else None
      | AfterComma => if (c =? 34)%N then run InStr [] items r else None
      | Done => None
      end
  end.

Definition parse (s : list N) : option (JsVal Z) :=
  (fun l => JArr (map JStr l)) <$> run Start [] [] s.

End RefHost.

Definition refHost : JsHost := {|
  Num := Z;
  numToBoolean := fun n => negb (n =? 0);
  numToString := Number_toString;
  numToTimeValue := TimeClip;
  Date_parse := fun _ => None;
  LocalTZA := 3600000;
  toLowerCase := map asciiLower;
  normalizeNFKD := fun s => s;
  JSON_parse := RefHost.parse;
  JSON_stringify := RefHost.stringify
|}.

Section Program.
Context `{host : JsHost}.

(** ** Conversions of the language *)

Definition ToBoolean (v : Val) : bool :=
  match v with
  | JUndefined | JNull => false
  | JBool b => b
  | JNum n => numToBoolean n
  | JStr s => negb (strEq s [])
  | JArr _ | JObj _ => true
  end.

(** [String(v)].  An array is its elements joined by commas, [null] and
    [undefined] elements giving the empty string. *)
Fixpoint ToString (v : Val) : list N :=
  match v with
  | JUndefined => str "undefined"
  | JNull => str "null"
  | JBool true => str "true"
  | JBool false => str "false"
  | JNum n => numToString n
  | JStr s => s
  | JArr elems =>
      (fix join (l : list Val) : list N :=
         match l with
         | [] => []
         | x :: r =>
             let sx := match x with
                       | JUndefined | JNull => []
                       | _ => ToString x
                       end in
             match r with
             | [] => sx
             | _ :: _ => sx ++ COMMA :: join r
             end
         end) elems
  | JObj _ => str "[object Object]"
  end.

(** [a || b] *)
Definition JsOr (a b : Val) : Val := if ToBoolean a then a else b.

(** ** Date objects *)

Definition LocalTime (t : Z) : Z := t + LocalTZA.
Definition UTC (t : Z) : Z := t - LocalTZA.

(** [new Date(value)] for a value of the snapshot. *)
Definition Date_of_value (v : Val) : Date :=
  match v with
  | JUndefined => None
  | JNull => Some 0
  | JBool b => Some (if b then 1 else 0)
  | JNum n => numToTimeValue n
  | JStr s => Date_parse s ≫= TimeClip
  | JArr _ | JObj _ => Date_parse (ToString v) ≫= TimeClip
  end.

(** [new Date(y, mo, d, h, mi, s, ms)] *)
Definition Date_of_components (y mo d h mi s ms : Z) : Date :=
  TimeClip (UTC (MakeDate (MakeDay (MakeFullYear y) mo d) (MakeTime h mi s ms))).

(** [d.setHours(h, mi, s, ms)], as the new time value. *)
Definition setHours (d : Date) (h mi s ms : Z) : Date :=
  match d with
  | None => None
  | Some t => TimeClip (UTC (MakeDate (Day (LocalTime t)) (MakeTime h mi s ms)))
  end.

Definition getTime (d : Date) : option Z := d.
Definition getFullYear (d : Date) : option Z := YearFromTime <$> (LocalTime <$> d).
Definition getMonth (d : Date) : option Z := MonthFromTime <$> (LocalTime <$> d).
Definition getDate (d : Date) : option Z := DateFromTime <$> (LocalTime <$> d).

(** Relational operators on numbers: false as soon as one side is NaN. *)
Definition num_gt (a b : option Z) : bool :=
  match a, b with Some x, Some y => y <? x | _, _ => false end.
Definition num_lt (a b : option Z) : bool :=
  match a, b with Some x, Some y => x <? y | _, _ => false end.
Definition num_le (a b : option Z) : bool :=
  match a, b with Some x, Some y => x <=? y | _, _ => false end.
(** [a === b] on numbers *)
Definition num_eq (a b : option Z) : bool :=
  match a, b with Some x, Some y => x =? y | _, _ => false end.
Definition num_sub (a b : option Z) : option Z :=
  match a, b with Some x, Some y => Some (x - y) | _, _ => None end.

(** ** Date normalization (app.js, [parseDate] .. [isSameLocalDay]) *)

(** The pattern [^(\d{4})-(\d{2})-(\d{2})$] with its three groups. *)
Definition matchIso (s : list N) : option (list N * list N * list N) :=
  match s with
  | [y1; y2; y3; y4; h1; m1; m2; h2; d1; d2] =>
      if forallb isDigit [y1; y2; y3; y4; m1; m2; d1; d2]
         && (h1 =? HYPHEN)%N && (h2 =? HYPHEN)%N
      then Some ([y1; y2; y3; y4], [m1; m2], [d1; d2])
      else None
  | _ => None
  end.

Definition parseDate (value : Val) : Date :=
  match value with
  | JStr s =>
      match matchIso s with
      | Some (m1, m2, m3) =>
          let y := Number_digits m1 in
          let mo := Number_digits m2 - 1 in
          let d := Number_digits m3 in
          Date_of_components y mo d 12 0 0 0
      | None => Date_of_value value
      end
  | _ => Date_of_value value
  end.

Definition hasIsoDate (value : Val) : bool :=
  match value with
  | JStr s => bool_decide (is_Some (matchIso s))
  | _ => false
  end.

(** [Math.ceil((to - from) / msPerDay)].  The difference of two time
    values and its quotient by [msPerDay] are exact in double precision
    over the time range, so the ceiling is the integer one. *)
Definition dayDiff (from to : Date) : option Z :=
  match num_sub (getTime to) (getTime from) with
  | Some x => Some (- ((- x) / msPerDay))
  | None => None
  end.

Definition atDayStart (value : Date) : Date := setHours value 0 0 0 0.

Definition atDayEnd (value : Date) : Date := setHours value 23 59 59 999.

Definition isSameLocalDay (a b : Date) : bool :=
  num_eq (getFullYear a) (getFullYear b)
  && num_eq (getMonth a) (getMonth b)
  && num_eq (getDate a) (getDate b).

(** ** Projects *)

Record Project := {
  launchDate : Val;
  endDate : Val;
  isPreview : Val;
  isPromo : Val;
  isLatePledge : Val;
  hasLatePledge : Val;
  latePledgeUrl : Val;
  isPreOrder : Val;
  hasPreOrder : Val;
  preOrderUrl : Val;
  designer : Val;
  designers : Val;
  publisher : Val
}.

(** ** Status classification *)

Definition projectStatus (p : Project) (now : Date) : list N :=
  let isPreview :=
    ToBoolean (isPreview p) || (negb (hasIsoDate (launchDate p)) && negb (hasIsoDate (endDate p))) in
  if isPreview then str "preview" else
  let launch := atDayStart (parseDate (launchDate p)) in
  let end_ := atDayEnd (parseDate (endDate p)) in
  let hasLatePledge :=
    ToBoolean (JsOr (JsOr (isLatePledge p) (hasLatePledge p)) (latePledgeUrl p)) in
  let hasPreOrder :=
    ToBoolean (JsOr (JsOr (isPreOrder p) (hasPreOrder p)) (preOrderUrl p)) in
  if num_gt launch now then str "upcoming" else
  if num_lt end_ now then
    if hasLatePledge then str "late-pledge" else
    if hasPreOrder then str "pre-order" else
    str "archived"
  else
  if ToBoolean (isPromo p) then str "promo" else
  str "live".

Definition projectIsJustLaunched (p : Project) (now : Date) : bool :=
  let status := projectStatus p now in
  if negb (includes [str "live"; str "promo"] status) then false else
  if negb (hasIsoDate (launchDate p)) then false else
  isSameLocalDay (atDayStart (parseDate (launchDate p))) now.

(** ** Countdown text *)

(** Text of a number in a template literal. *)
Definition numText (d : option Z) : list N :=
  match d with Some z => Number_toString z | None => str "NaN" end.

(** [<span class="countdown-chip CLS">TEXT</span>] *)
Definition chip (cls text : list N) : list N :=
  str "<span class=" ++ DQUOTE :: str "countdown-chip " ++ cls ++ DQUOTE :: str ">"
  ++ text ++ str "</span>".

Definition countdownChip (status : list N) (p : Project) (now : Date) : list N :=
  if strEq status (str "preview") then chip (str "preview") (str "Dates TBA") else
  if strEq status (str "upcoming") && hasIsoDate (launchDate p) then
    let days := dayDiff now (parseDate (launchDate p)) in
    if num_le days (Some 0) then chip (str "upcoming") (str "Launching soon")
    else chip (str "upcoming") (str "Launches in " ++ numText days ++ str "d")
  else
  if includes [str "live"; str "promo"; str "late-pledge"; str "pre-order"] status
     && hasIsoDate (endDate p) then
    let days := dayDiff now (parseDate (endDate p)) in
    if num_lt days (Some 0) then chip (str "ended") (str "Ended") else
    if num_eq days (Some 0) then chip (str "live") (str "Ends today") else
    chip (str "live") (str "Ends in " ++ numText days ++ str "d")
  else [].

(** ** Watchlist *)

Definition WATCHLIST_STORAGE_KEY : list N := str "pnpl_watchlist_v1".

(** [window.localStorage]: the stored items, and whether the storage is
    available.  When it is unavailable every access throws; a storage that
    is available accepts every write (an exhausted quota is not
    modelled). *)
Record Storage := {
  available : bool;
  items : gmap (list N) (list N)
}.

(** [None]: the call throws. *)
Definition getItem (k : list N) (st : Storage) : option (option (list N)) :=
  if available st then Some (items st !! k) else None.

Definition setItem (k v : list N) (st : Storage) : option Storage :=
  if available st
  then Some {| available := true; items := <[k := v]> (items st) |}
  else None.

(** One step of the [forEach] of [readWatchlist], on [(unique, seen)]. *)
Definition keepUnique (acc : list (list N) * gset (list N)) (item : Val)
  : list (list N) * gset (list N) :=
  let slug := trim (ToString (JsOr item (JStr []))) in
  if strEq slug [] || bool_decide (slug ∈ acc.2) then acc
  else (acc.1 ++ [slug], {[slug]} ∪ acc.2).

Definition readWatchlist (st : Storage) : list (list N) :=
  match getItem WATCHLIST_STORAGE_KEY st with
  | None => []
  | Some None => []
  | Some (Some raw) =>
      if strEq raw [] then [] else
      match JSON_parse raw with
      | None => []
      | Some (JArr parsed) => (fold_left keepUnique parsed ([], ∅)).1
      | Some _ => []
      end
  end.

Definition writeWatchlist (slugs : list (list N)) (st : Storage) : Storage :=
  match setItem WATCHLIST_STORAGE_KEY (JSON_stringify (JArr (map JStr slugs))) st with
  | Some st' => st'
  | None => st
  end.

Definition getWatchlistSlugs (st : Storage) : list (list N) := readWatchlist st.

Definition toggleWatchlist (slug : Val) (st : Storage) : bool * Storage :=
  let normalized := trim (ToString (JsOr slug (JStr []))) in
  if strEq normalized [] then (false, st) else
  let slugs := readWatchlist st in
  match indexOf slugs normalized with
  | Some idx => (false, writeWatchlist (delete idx slugs) st)
  | None => (true, writeWatchlist (slugs ++ [normalized]) st)
  end.

(** ** Sort comparators *)

Definition byEndAsc (a b : Project) : option Z :=
  if negb (hasIsoDate (endDate a)) && negb (hasIsoDate (endDate b)) then Some 0 else
  if negb (hasIsoDate (endDate a)) then Some 1 else
  if negb (hasIsoDate (endDate b)) then Some (-1) else
  num_sub (getTime (parseDate (endDate a))) (getTime (parseDate (endDate b))).

(** The [rank] of [byArchivePriority], at the clock reading [now]. *)
Definition rank (now : Z) (p : Project) : Z :=
  let status := projectStatus p (Some now) in
  if strEq status (str "late-pledge") then 0 else
  if strEq status (str "pre-order") then 1 else
  2.

(** [now_a], [now_b]: what [new Date()] reads in [rank(a)] and in
    [rank(b)]. *)
Definition byArchivePriority (now_a now_b : Z) (a b : Project) : option Z :=
  let rankDiff := rank now_a a - rank now_b b in
  if negb (rankDiff =? 0) then Some rankDiff else
  num_sub (getTime (parseDate (endDate b))) (getTime (parseDate (endDate a))).

(** ** Name and slug enrichment *)

Definition isCombiningMark (c : N) : bool := ((768 <=? c) && (c <=? 879))%N.
Definition isSlugChar (c : N) : bool := isLowerAlpha c || isDigit c.
Definition isHyphen (c : N) : bool := (c =? HYPHEN)%N.

(** [.replace(/[^a-z0-9]+/g, '-')]; [inRun]: the unit before was part of
    a run that is already replaced. *)
Fixpoint hyphenateRuns (inRun : bool) (s : list N) : list N :=
  match s with
  | [] => []
  | c :: r =>
      if isSlugChar c then c :: hyphenateRuns false r
      else if inRun then hyphenateRuns true r
      else HYPHEN :: hyphenateRuns true r
  end.

Definition slugify (value : Val) : list N :=
  let value := match value with JUndefined => JStr [] | _ => value end in
  trimEnds isHyphen
    (hyphenateRuns false
       (filter (fun c => negb (isCombiningMark c))
          (normalizeNFKD (toLowerCase (ToString value))))).

Record Person := { name : Val; slug : Val }.

(** The content snapshot; [None]: the property is missing. *)
Record Content := {
  data_projects : list Project;
  data_designers : option (list Person);
  data_publishers : option (list Person)
}.

Record DesignerItem := { item_name : list N; item_slug : Val }.

(** The object [enrichProjects] returns for a project: the project's own
    properties ([spread]) and the five it sets. *)
Record EnrichedProject := {
  spread : Project;
  designer' : Val;
  designerItems : list DesignerItem;
  designerSlugs : list Val;
  designerSlug : Val;
  publisherSlug : Val
}.

(** [new Map(entries)]: a later entry replaces an earlier one with the
    same key. *)
Definition Map_of (entries : list (list N * Person)) : gmap (list N) Person :=
  fold_left (fun m kv => <[kv.1 := kv.2]> m) entries ∅.

Definition byName (people : list Person) : gmap (list N) Person :=
  Map_of (map (fun d => (toLowerCase (ToString (JsOr (name d) (JStr []))), d)) people).

(** [m?.slug] *)
Definition slugOf (m : option Person) : Val :=
  match m with Some d => slug d | None => JUndefined end.

Definition nonEmpty (s : list N) : bool := negb (strEq s []).

Definition enrichProject (designerByName publisherByName : gmap (list N) Person)
    (project : Project) : EnrichedProject :=
  let designerNames :=
    match designers project with
    | JArr elems =>
        filter nonEmpty (map (fun n => trim (ToString (JsOr n (JStr [])))) elems)
    | _ =>
        filter nonEmpty (map trim (split COMMA (ToString (JsOr (designer project) (JStr [])))))
    end in
  let designerItems :=
    map (fun name =>
           let match_ := designerByName !! toLowerCase (ToString (JStr name)) in
           {| item_name := name;
              item_slug := JsOr (slugOf match_) (JStr (slugify (JStr name))) |})
        designerNames in
  let d := if ToBoolean (designer project)
           then designerByName !! toLowerCase (ToString (designer project)) else None in
  let p := if ToBoolean (publisher project)
           then publisherByName !! toLowerCase (ToString (publisher project)) else None in
  {| spread := project;
     designer' := JsOr (designer project) (JStr (join (str ", ") designerNames));
     designerItems := designerItems;
     designerSlugs := map item_slug designerItems;
     designerSlug :=
       JsOr (JsOr (match head designerItems with
                   | Some i => item_slug i
                   | None => JUndefined
                   end)
                  (slugOf d))
            (if ToBoolean (designer project) then JStr (slugify (designer project)) else JStr []);
     publisherSlug :=
       JsOr (slugOf p)
            (if ToBoolean (publisher project) then JStr (slugify (publisher project)) else JStr []) |}.

Definition enrichProjects (data : Content) : list EnrichedProject :=
  let designers := default [] (data_designers data) in
  let publishers := default [] (data_publishers data) in
  let designerByName := byName designers in
  let publisherByName := byName publishers in
  map (enrichProject designerByName publisherByName) (data_projects data).

(** ** Paths and HTML text *)

Definition SLASH : N := 47.

(** [s.endsWith(suffix)] *)
Definition endsWith (s suffix : list N) : bool :=
  strEq (drop (length s - length suffix) s) suffix.

(** The constant [basePath], from [window.location.hostname] and
    [window.location.pathname]. *)
Definition computeBasePath (hostname pathname : list N) : list N :=
  if endsWith hostname (str "github.io") then
    match filter nonEmpty (split SLASH pathname) with
    | first :: _ => SLASH :: first
    | [] => []
    end
  else [].

(** [s] starts with [prefix] up to ASCII case ([prefix] in lower case):
    how a pattern of ASCII letters with the [i] flag matches. *)
Fixpoint startsWithCI (prefix s : list N) : bool :=
  match prefix, s with
  | [], _ => true
  | x :: prefix', c :: s' => (asciiLower c =? x)%N && startsWithCI prefix' s'
  | _ :: _, [] => false
  end.

(** [/^https?:\/\//i.test(s)] *)
Definition isHttpUrl (s : list N) : bool :=
  startsWithCI (str "http://") s || startsWithCI (str "https://") s.

Definition isSlash (c : N) : bool := (c =? SLASH)%N.

Definition withBase (basePath : list N) (path : Val) : Val :=
  let path := match path with JUndefined => JStr [] | _ => path end in
  if isHttpUrl (ToString path) then path else
  let clean := dropWhile isSlash (ToString path) in
  if nonEmpty clean then JStr (basePath ++ SLASH :: clean) else JStr (basePath ++ [SLASH]).

(** [s.replace(/c/g, rep)] for a one-unit pattern *)
Definition replaceUnit (c : N) (rep : list N) (s : list N) : list N :=
  flat_map (fun x => if (x =? c)%N then rep else [x]) s.

Definition AMP : N := 38.
Definition LT : N := 60.
Definition GT : N := 62.
Definition APOS : N := 39.

Definition escapeHtml (value : Val) : list N :=
  let value := match value with JUndefined => JStr [] | _ => value end in
  replaceUnit APOS (str "&#39;")
    (replaceUnit DQUOTE (str "&quot;")
       (replaceUnit GT (str "&gt;")
          (replaceUnit LT (str "&lt;")
             (replaceUnit AMP (str "&amp;") (ToString value))))).

(** ** More of the watchlist *)

Definition isWatchlisted (slug : Val) (st : Storage) : bool :=
  if negb (ToBoolean slug) then false else
  includes (readWatchlist st) (ToString slug).

Definition clearWatchlist (st : Storage) : Storage := writeWatchlist [] st.

(** ** More comparators *)

(** A weekly issue of the editorial variant of the snapshot. *)
Record Issue := { weekStart : Val; weekEnd : Val }.

Definition byWeekDesc (a b : Issue) : option Z :=
  num_sub (getTime (parseDate (weekStart b))) (getTime (parseDate (weekStart a))).

Definition byLaunchDesc (a b : Project) : option Z :=
  if negb (hasIsoDate (launchDate a)) && negb (hasIsoDate (launchDate b)) then Some 0 else
  if negb (hasIsoDate (launchDate a)) then Some 1 else
  if negb (hasIsoDate (launchDate b)) then Some (-1) else
  num_sub (getTime (parseDate (launchDate b))) (getTime (parseDate (launchDate a))).

(** ** Status badges *)

(** [="S"] after an attribute name *)
Definition attr (s : list N) : list N := str "=" ++ DQUOTE :: s ++ [DQUOTE].

(** [p]: [None] is the default [null]. *)
Definition statusBadge (basePath : list N) (status : list N) (p : option Project)
    (now : Date) : list N :=
  let launchBadge :=
    if match p with Some p' => projectIsJustLaunched p' now | None => false end
    then str "<span class" ++ attr (str "badge just-launched") ++ str ">JUST LAUNCHED</span>"
    else [] in
  if strEq status (str "live") then
    launchBadge ++ str "<a class" ++ attr (str "badge-link")
    ++ str " href" ++ attr (ToString (withBase basePath (JStr (str "live.html"))))
    ++ str "><span class" ++ attr (str "badge live-now") ++ str ">LIVE NOW</span></a>"
  else if strEq status (str "upcoming") then
    str "<a class" ++ attr (str "badge-link")
    ++ str " href" ++ attr (ToString (withBase basePath (JStr (str "upcoming.html"))))
    ++ str "><span class" ++ attr (str "badge upcoming") ++ str ">Upcoming</span></a>"
  else if strEq status (str "promo") then
    launchBadge ++ str "<span class" ++ attr (str "badge promo") ++ str ">PROMO</span>"
  else if strEq status (str "preview") then
    str "<span class" ++ attr (str "badge preview") ++ str ">PREVIEW</span>"
  else if strEq status (str "late-pledge") then
    let lpUrl :=
      match p with
      | Some p' =>
          if ToBoolean (latePledgeUrl p') then ToString (latePledgeUrl p')
          else ToString (withBase basePath (JStr (str "archive.html")))
      | None => ToString (withBase basePath (JStr (str "archive.html")))
      end in
    str "<a class" ++ attr (str "badge-link") ++ str " href" ++ attr lpUrl
    ++ str " target" ++ attr (str "_blank") ++ str " rel" ++ attr (str "noreferrer noopener")
    ++ str "><span class" ++ attr (str "badge late-pledge") ++ str ">LATE PLEDGE</span></a>"
  else if strEq status (str "pre-order") then
    let poUrl :=
      match p with
      | Some p' =>
          if ToBoolean (preOrderUrl p') then ToString (preOrderUrl p')
          else ToString (withBase basePath (JStr (str "archive.html")))
      | None => ToString (withBase basePath (JStr (str "archive.html")))
      end in
    str "<a class" ++ attr (str "badge-link") ++ str " href" ++ attr poUrl
    ++ str " target" ++ attr (str "_blank") ++ str " rel" ++ attr (str "noreferrer noopener")
    ++ str "><span class" ++ attr (str "badge pre-order") ++ str ">PRE-ORDER</span></a>"
  else
    str "<span class" ++ attr (str "badge archived") ++ str ">Ended</span>".

End Program.

(** ** The earlier revision of app.js

    The file holds an earlier revision of the script before the current
    one.  Its classifier compares against local noon of the launch and end
    days (no day boundaries) and knows no pre-order; its enrichment reads
    only the [designer] text. *)

Module Rev1.
Section Program.
Context `{host : JsHost}.

Definition projectStatus (p : Project) (now : Date) : list N :=
  let isPreview :=
    ToBoolean (isPreview p) || (negb (hasIsoDate (launchDate p)) && negb (hasIsoDate (endDate p))) in
  if isPreview then str "preview" else
  let launch := parseDate (launchDate p) in
  let end_ := parseDate (endDate p) in
  let hasLatePledge :=
    ToBoolean (JsOr (JsOr (isLatePledge p) (hasLatePledge p)) (latePledgeUrl p)) in
  if num_gt launch now then str "upcoming" else
  if num_lt end_ now then (if hasLatePledge then str "late-pledge" else str "archived") else
  if ToBoolean (isPromo p) then str "promo" else
  str "live".

Definition rank (now : Z) (p : Project) : Z :=
  if strEq (projectStatus p (Some now)) (str "late-pledge") then 0 else 1.

Definition byArchivePriority (now_a now_b : Z) (a b : Project) : option Z :=
  let rankDiff := rank now_a a - rank now_b b in
  if negb (rankDiff =? 0) then Some rankDiff else
  num_sub (getTime (parseDate (endDate b))) (getTime (parseDate (endDate a))).

Record EnrichedProject := {
  spread : Project;
  designerSlug : Val;
  publisherSlug : Val
}.

Definition enrichProject (designerByName publisherByName : gmap (list N) Person)
    (project : Project) : EnrichedProject :=
  let d := if ToBoolean (designer project)
           then designerByName !! toLowerCase (ToString (designer project)) else None in
  let p := if ToBoolean (publisher project)
           then publisherByName !! toLowerCase (ToString (publisher project)) else None in
  {| spread := project;
     designerSlug :=
       JsOr (slugOf d)
            (if ToBoolean (designer project) then JStr (slugify (designer project)) else JStr []);
     publisherSlug :=
       JsOr (slugOf p)
            (if ToBoolean (publisher project) then JStr (slugify (publisher project)) else JStr []) |}.

Definition enrichProjects (data : Content) : list EnrichedProject :=
  let designers := default [] (data_designers data) in
  let publishers := default [] (data_publishers data) in
  let designerByName := byName designers in
  let publisherByName := byName publishers in
  map (enrichProject designerByName publisherByName) (data_projects data).

End Program.
End Rev1.


(** ** The specification's vocabulary *)

Section Vocabulary.
Context `{host : JsHost}.

Definition statuses : list (list N) :=
  [str "preview"; str "upcoming"; str "live"; str "promo";
   str "late-pledge"; str "pre-order"; str "archived"].

(** "a late-pledge flag or URL is present", "a pre-order flag or URL is
    present" *)
Definition latePledgePresent (p : Project) : bool :=
  ToBoolean (isLatePledge p) || ToBoolean (hasLatePledge p) || ToBoolean (latePledgeUrl p).

Definition preOrderPresent (p : Project) : bool :=
  ToBoolean (isPreOrder p) || ToBoolean (hasPreOrder p) || ToBoolean (preOrderUrl p).

(** The decision order of the specification (section 4.2), first match
    wins. *)
Definition classify (p : Project) (now : Date) : list N :=
  if ToBoolean (isPreview p) || negb (hasIsoDate (launchDate p) || hasIsoDate (endDate p))
  then str "preview"
  else if num_gt (atDayStart (parseDate (launchDate p))) now
  then str "upcoming"
  else if num_lt (atDayEnd (parseDate (endDate p))) now
  then (if latePledgePresent p then str "late-pledge"
        else if preOrderPresent p then str "pre-order"
        else str "archived")
  else if ToBoolean (isPromo p) then str "promo"
  else str "live".

(** The day number an ISO day-string denotes through the [Date]
    constructor, and the instant of a local wall-clock reading on a day. *)
Definition isoDay (s : list N) : option Z :=
  match matchIso s with
  | Some (y, m, d) =>
      Some (MakeDay (MakeFullYear (Number_digits y)) (Number_digits m - 1) (Number_digits d))
  | None => None
  end.

Definition isoDayOf (v : Val) : option Z :=
  match v with JStr s => isoDay s | _ => None end.

Definition localInstant (day h mi s ms : Z) : Z :=
  UTC (MakeDate day (MakeTime h mi s ms)).

(** Four digits, a hyphen, two digits, a hyphen, two digits. *)
Definition isoShaped (s : list N) : Prop :=
  exists y1 y2 y3 y4 m1 m2 d1 d2,
    s = [y1; y2; y3; y4; HYPHEN; m1; m2; HYPHEN; d1; d2]
    /\ Forall (fun c => isDigit c = true) [y1; y2; y3; y4; m1; m2; d1; d2].

(** "case-insensitive exact name match": the lower-cased names are the
    same string.  A name resolves to the last such entry of the
    registry. *)
Definition sameNameIgnoringCase (n : list N) (d : Person) : bool :=
  strEq (toLowerCase (ToString (JsOr (name d) (JStr [])))) (toLowerCase n).

Definition registryMatch (registry : list Person) (n : list N) : option Person :=
  fold_left (fun found d => if sameNameIgnoringCase n d then Some d else found)
            registry None.

(** The slug of a name: the slug of the matching entry when there is one
    and its slug is truthy (not empty), else the derived slug. *)
Definition resolvedSlug (registry : list Person) (n : list N) : Val :=
  match registryMatch registry n with
  | Some d => if ToBoolean (slug d) then slug d else JStr (slugify (JStr n))
  | None => JStr (slugify (JStr n))
  end.

(** Shape of a derived slug: only [a-z0-9-], no hyphen at either end, no
    two hyphens in a row. *)
Definition slugShape (s : list N) : Prop :=
  Forall (fun c => isSlugChar c = true \/ c = HYPHEN) s
  /\ head s <> Some HYPHEN
  /\ last s <> Some HYPHEN
  /\ (forall l1 l2, s <> l1 ++ [HYPHEN; HYPHEN] ++ l2).

(** A watchlist entry as [readWatchlist] returns it: trimmed, not empty. *)
Definition normalizedSlug (s : list N) : Prop := s <> [] /\ trim s = s.

Definition toggleAll (slugs : list Val) (st : Storage) : Storage :=
  fold_left (fun st s => (toggleWatchlist s st).2) slugs st.

Definition liveWindow (s : list N) : Prop := s = str "live" \/ s = str "promo".

Definition closedWindow (s : list N) : Prop :=
  s = str "archived" \/ s = str "late-pledge" \/ s = str "pre-order".

Definition datedStatuses : list (list N) :=
  [str "upcoming"; str "live"; str "promo"; str "late-pledge"; str "pre-order"; str "archived"].

Definition countdownStatuses : list (list N) :=
  [str "live"; str "promo"; str "late-pledge"; str "pre-order"].

Definition endTime (p : Project) : option Z := getTime (parseDate (endDate p)).

Definition validEnd (p : Project) : Prop := hasIsoDate (endDate p) = true.

(** Both end times are defined and the first is not after the second. *)
Definition endsNoLater (a b : Project) : Prop :=
  exists ta tb, endTime a = Some ta /\ endTime b = Some tb /\ ta <= tb.

(** The state of the [forEach] of [readWatchlist]: [unique] has no
    duplicates, holds trimmed non-empty strings, and [seen] is its set. *)
Definition uniqueInv (acc : list (list N) * gset (list N)) : Prop :=
  NoDup acc.1 /\ Forall normalizedSlug acc.1 /\ forall x, x ∈ acc.2 <-> x ∈ acc.1.

(** The [designerNames] of [enrichProjects]. *)
Definition designerNamesOf (project : Project) : list (list N) :=
  match designers project with
  | JArr elems =>
      filter nonEmpty (map (fun n => trim (ToString (JsOr n (JStr [])))) elems)
  | _ =>
      filter nonEmpty (map trim (split COMMA (ToString (JsOr (designer project) (JStr [])))))
  end.

(** The local calendar day of [a] is that of [b]: same year, month and
    day of the month. *)
Definition sameCalendarDay (a b : Date) : Prop :=
  exists y m d,
    getFullYear a = Some y /\ getFullYear b = Some y
    /\ getMonth a = Some m /\ getMonth b = Some m
    /\ getDate a = Some d /\ getDate b = Some d.

(** *** Vocabulary of the further properties *)

(** What [escapeHtml] makes of one code unit. *)
Definition escapeUnitHtml (c : N) : list N :=
  (if c =? AMP then str "&amp;"
   else if c =? LT then str "&lt;"
   else if c =? GT then str "&gt;"
   else if c =? DQUOTE then str "&quot;"
   else if c =? APOS then str "&#39;"
   else [c])%N.

Definition isHtmlSpecial (c : N) : bool :=
  ((c =? AMP) || (c =? LT) || (c =? GT) || (c =? DQUOTE) || (c =? APOS))%N.

Fixpoint startsWith (prefix s : list N) : bool :=
  match prefix, s with
  | [], _ => true
  | x :: prefix', c :: s' => (c =? x)%N && startsWith prefix' s'
  | _ :: _, [] => false
  end.

(** Reads the five entities of [escapeHtml] back; [skip]: units of an
    entity still to pass over. *)
Fixpoint decodeHtml (skip : nat) (s : list N) : list N :=
  match s with
  | [] => []
  | c :: r =>
      match skip with
      | S k => decodeHtml k r
      | O =>
          if (c =? AMP)%N then
            if startsWith (str "amp;") r then AMP :: decodeHtml 4 r
            else if startsWith (str "lt;") r then LT :: decodeHtml 3 r
            else if startsWith (str "gt;") r then GT :: decodeHtml 3 r
            else if startsWith (str "quot;") r then DQUOTE :: decodeHtml 5 r
            else if startsWith (str "#39;") r then APOS :: decodeHtml 4 r
            else c :: decodeHtml 0 r
          else c :: decodeHtml 0 r
      end
  end.

(** The argument of a function with the default [= ''] *)
Definition orEmpty (v : Val) : Val :=
  match v with JUndefined => JStr [] | _ => v end.

Definition launchTime (p : Project) : option Z := getTime (parseDate (launchDate p)).

Definition validLaunch (p : Project) : Prop := hasIsoDate (launchDate p) = true.

(** Both launch times are defined and the first is not before the
    second. *)
Definition launchesNoEarlier (a b : Project) : Prop :=
  exists ta tb, launchTime a = Some ta /\ launchTime b = Some tb /\ tb <= ta.

Definition weekTime (i : Issue) : option Z := getTime (parseDate (weekStart i)).

Definition validWeek (i : Issue) : Prop := hasIsoDate (weekStart i) = true.

Definition weekNoEarlier (a b : Issue) : Prop :=
  exists ta tb, weekTime a = Some ta /\ weekTime b = Some tb /\ tb <= ta.

(** The order of the archive at the clock reading [now]: a lower rank
    first, and within a rank the later end first. *)
Definition archiveOrder (now : Z) (a b : Project) : Prop :=
  rank now a < rank now b \/ (rank now a = rank now b /\ endsNoLater b a).

(** The markup of the "just launched" badge. *)
Definition launchBadgeHtml : list N :=
  str "<span class=" ++ DQUOTE :: str "badge just-launched" ++ DQUOTE :: str ">JUST LAUNCHED</span>".

(** The status the earlier revision gives where the current one says
    pre-order: it has no such status. *)
Definition withoutPreOrder (status : list N) : list N :=
  if strEq status (str "pre-order") then str "archived" else status.

End Vocabulary.

(** ** Sample data on the reference host *)

Module Sample.

Definition dated (launch end_ : string) (latePledge preOrder : bool) : @Project refHost :=
  {| launchDate := JStr (str launch);
     endDate := JStr (str end_);
     isPreview := JUndefined;
     isPromo := JUndefined;
     isLatePledge := JBool latePledge;
     hasLatePledge := JUndefined;
     latePledgeUrl := JUndefined;
     isPreOrder := JBool preOrder;
     hasPreOrder := JUndefined;
     preOrderUrl := JUndefined;
     designer := JStr (str "Ada Lovelace");
     designers := JUndefined;
     publisher := JUndefined |}.

(** Launch 2025-03-10, end 2025-03-17. *)
Definition march : @Project refHost := dated "2025-03-10" "2025-03-17" false false.
Definition marchLate : @Project refHost := dated "2025-03-10" "2025-03-17" true false.
Definition marchPre : @Project refHost := dated "2025-03-10" "2025-03-17" false true.
Definition february : @Project refHost := dated "2025-02-01" "2025-02-20" false false.
Definition rolled : @Project refHost := dated "2025-13-40" "soon" false false.
Definition undated : @Project refHost := dated "TBA" "TBA" false false.

(** A local wall-clock reading on the reference host. *)
Definition at_ (y m d h mi : Z) : Z := @localInstant refHost (MakeDay y m d) h mi 0 0.

(** Registry entries for "Ada Lovelace": with slug "ada-l", and with an
    empty slug. *)
Definition ada : @Person refHost :=
  {| name := JStr (str "ADA LOVELACE"); slug := JStr (str "ada-l") |}.
Definition adaNoSlug : @Person refHost :=
  {| name := JStr (str "Ada Lovelace"); slug := JStr [] |}.

Definition content (registry : list (@Person refHost)) : @Content refHost :=
  {| data_projects := [march]; data_designers := Some registry; data_publishers := None |}.

Definition emptyStorage : Storage := {| available := true; items := ∅ |}.
Definition noStorage : Storage := {| available := false; items := ∅ |}.

(** A project whose end date is not given. *)
Definition openEnded : @Project refHost :=
  {| launchDate := JStr (str "2025-03-10");
     endDate := JUndefined;
     isPreview := JUndefined;
     isPromo := JUndefined;
     isLatePledge := JUndefined;
     hasLatePledge := JUndefined;
     latePledgeUrl := JUndefined;
     isPreOrder := JUndefined;
     hasPreOrder := JUndefined;
     preOrderUrl := JUndefined;
     designer := JUndefined;
     designers := JUndefined;
     publisher := JUndefined |}.

(** Two designers, as an array and as the legacy text. *)
Definition teamNames : list (list N) := [str "Ada Lovelace"; str "Grace Hopper"].

Definition team : @Project refHost :=
  {| launchDate := JStr (str "2025-03-10");
     endDate := JStr (str "2025-03-17");
     isPreview := JUndefined;
     isPromo := JUndefined;
     isLatePledge := JUndefined;
     hasLatePledge := JUndefined;
     latePledgeUrl := JUndefined;
     isPreOrder := JUndefined;
     hasPreOrder := JUndefined;
     preOrderUrl := JUndefined;
     designer := JUndefined;
     designers := JArr (map JStr teamNames);
     publisher := JUndefined |}.

Definition teamText : @Project refHost :=
  {| launchDate := JStr (str "2025-03-10");
     endDate := JStr (str "2025-03-17");
     isPreview := JUndefined;
     isPromo := JUndefined;
     isLatePledge := JUndefined;
     hasLatePledge := JUndefined;
     latePledgeUrl := JUndefined;
     isPreOrder := JUndefined;
     hasPreOrder := JUndefined;
     preOrderUrl := JUndefined;
     designer := JStr (str "Ada Lovelace, Grace Hopper");
     designers := JUndefined;
     publisher := JUndefined |}.

Definition issue (week : string) : @Issue refHost :=
  {| weekStart := JStr (str week); weekEnd := JUndefined |}.

(** The storage after saving "foo". *)
Definition savedStorage : Storage :=
  (@toggleWatchlist refHost (JStr (str "foo")) emptyStorage).2.

End Sample.

(** * Sorting with a comparator *)

Section StableSort.
Context {A : Type} (cmp : A -> A -> option Z).

Hypothesis cmp_asym : forall x y, comesAfter (cmp y x) = true -> precedes cmp x y.
Hypothesis precedes_trans :
  forall x y z, precedes cmp x y -> precedes cmp y z -> precedes cmp x z.

Lemma insertBy_perm (x : A) (l : list A) : Permutation (x :: l) (insertBy cmp x l).
Proof.
  induction l as [|y r IH]; simpl; [reflexivity|].
  destruct (comesAfter (cmp y x)); [reflexivity|].
  rewrite perm_swap. apply perm_skip. exact IH.
Qed.

Lemma insertBy_Forall (P : A -> Prop) (x : A) (l : list A) :
  P x -> Forall P l -> Forall P (insertBy cmp x l).
Proof.
  intros Hx Hl. eapply Permutation_Forall; [apply insertBy_perm|]. constructor; assumption.
Qed.

Lemma insertBy_sorted (x : A) (l : list A) :
  StronglySorted (precedes cmp) l -> StronglySorted (precedes cmp) (insertBy cmp x l).
Proof.
  induction 1 as [|y r Hr IH Hy]; simpl.
  - constructor; constructor.
  - destruct (comesAfter (cmp y x)) eqn:E.
    + constructor; [constructor; assumption|].
      constructor; [apply cmp_asym; exact E|].
      eapply Forall_impl; [exact Hy|]. intros z Hz. simpl in Hz.
      eapply precedes_trans; [apply cmp_asym; exact E | exact Hz].
    + constructor; [exact IH|]. apply insertBy_Forall; [exact E | exact Hy].
Qed.

Lemma Array_sort_perm (l : list A) : Permutation l (Array_sort cmp l).
Proof.
  unfold Array_sort.
  assert (forall acc, Permutation (acc ++ l) (fold_left (fun acc x => insertBy cmp x acc) l acc)) as H.
  { induction l as [|x r IH]; intros acc; simpl.
    - rewrite app_nil_r. reflexivity.
    - rewrite <- IH. rewrite <- insertBy_perm. symmetry. apply Permutation_middle. }
  apply (H []).
Qed.

Lemma Array_sort_sorted (l : list A) : StronglySorted (precedes cmp) (Array_sort cmp l).
Proof.
  unfold Array_sort.
  assert (forall acc, StronglySorted (precedes cmp) acc ->
            StronglySorted (precedes cmp) (fold_left (fun acc x => insertBy cmp x acc) l acc)) as H.
  { induction l as [|x r IH]; intros acc Hacc; simpl; [exact Hacc|].
    apply IH. apply insertBy_sorted. exact Hacc. }
  apply H. constructor.
Qed.

End StableSort.

(** * Properties *)

Section Properties.
Context `{host : JsHost} {laws : JsHostLaws host}.

(** ** Strings *)

Lemma strEq_spec (a b : list N) : strEq a b = true <-> a = b.
Proof.
  revert b; induction a as [|x a IH]; intros [|y b]; simpl; try (split; congruence).
  rewrite andb_true_iff, N.eqb_eq, IH. split.
  - intros [-> ->]; reflexivity.
  - intros [= -> ->]; auto.
Qed.

Lemma strEq_refl (a : list N) : strEq a a = true.
Proof. apply strEq_spec; reflexivity. Qed.

Lemma strEq_false (a b : list N) : strEq a b = false <-> a <> b.
Proof.
  rewrite <- strEq_spec. destruct (strEq a b); split; congruence.
Qed.

Lemma ToBoolean_JsOr (a b : Val) :
  ToBoolean (JsOr a b) = ToBoolean a || ToBoolean b.
Proof. unfold JsOr. destruct (ToBoolean a) eqn:E; simpl; auto. Qed.

(** ** Time arithmetic *)

Ltac zdiv := Z.div_mod_to_equations; lia.

Lemma msPerDay_val : msPerDay = 86400000.
Proof. reflexivity. Qed.

Lemma Day_MakeDate (day time : Z) :
  0 <= time < msPerDay -> Day (MakeDate day time) = day.
Proof.
  unfold Day, MakeDate. rewrite msPerDay_val. intros Ht. zdiv.
Qed.

Lemma LocalTime_UTC (x : Z) : LocalTime (UTC x) = x.
Proof. unfold LocalTime, UTC. lia. Qed.

Lemma TimeClip_in_range (x : Z) : Z.abs x <= maxTime -> TimeClip x = Some x.
Proof.
  intros Hx. unfold TimeClip. destruct (Z.leb_spec (Z.abs x) maxTime); [reflexivity|lia].
Qed.

Lemma monthStart_bound (m leap : Z) :
  0 <= m < 12 -> 0 <= leap <= 1 -> 0 <= monthStart m leap <= 335.
Proof.
  intros Hm Hl.
  assert (m = 0 \/ m = 1 \/ m = 2 \/ m = 3 \/ m = 4 \/ m = 5 \/ m = 6
          \/ m = 7 \/ m = 8 \/ m = 9 \/ m = 10 \/ m = 11) as Hc by lia.
  decompose [or] Hc; subst m; simpl; lia.
Qed.

Lemma InLeapYear_of_bound (y : Z) : 0 <= InLeapYear_of y <= 1.
Proof. unfold InLeapYear_of. destruct (DaysInYear y =? 366); lia. Qed.

Lemma isDigit_range (c : N) : isDigit c = true -> 0 <= digitVal c <= 9.
Proof.
  unfold isDigit, digitVal. rewrite andb_true_iff, !N.leb_le. lia.
Qed.

Lemma matchIso_inv (s : list N) (y m d : list N) :
  matchIso s = Some (y, m, d) ->
  exists y1 y2 y3 y4 m1 m2 d1 d2,
    s = [y1; y2; y3; y4; HYPHEN; m1; m2; HYPHEN; d1; d2]
    /\ y = [y1; y2; y3; y4] /\ m = [m1; m2] /\ d = [d1; d2]
    /\ Forall (fun c => isDigit c = true) [y1; y2; y3; y4; m1; m2; d1; d2].
Proof.
  unfold matchIso.
  destruct s as [|y1 [|y2 [|y3 [|y4 [|h1 [|m1 [|m2 [|h2 [|d1 [|d2 [|x r]]]]]]]]]]];
    try discriminate.
  destruct (forallb isDigit [y1; y2; y3; y4; m1; m2; d1; d2]) eqn:Hd; simpl; try discriminate.
  destruct (N.eqb_spec h1 HYPHEN) as [->|]; simpl; try discriminate.
  destruct (N.eqb_spec h2 HYPHEN) as [->|]; simpl; try discriminate.
  intros [= <- <- <-].
  exists y1, y2, y3, y4, m1, m2, d1, d2.
  repeat split; try reflexivity.
  apply Forall_forall. intros c Hc. rewrite forallb_forall in Hd. apply Hd.
  apply list_elem_of_In. exact Hc.
Qed.

Lemma matchIso_shaped (s : list N) : is_Some (matchIso s) <-> isoShaped s.
Proof.
  split.
  - intros [[[y m] d] H]. apply matchIso_inv in H.
    destruct H as (y1 & y2 & y3 & y4 & m1 & m2 & d1 & d2 & -> & _ & _ & _ & Hd).
    exists y1, y2, y3, y4, m1, m2, d1, d2. auto.
  - intros (y1 & y2 & y3 & y4 & m1 & m2 & d1 & d2 & -> & Hd).
    unfold matchIso.
    assert (forallb isDigit [y1; y2; y3; y4; m1; m2; d1; d2] = true) as ->.
    { apply forallb_forall. intros c Hc. rewrite Forall_forall in Hd. apply Hd.
      apply list_elem_of_In. exact Hc. }
    rewrite N.eqb_refl. simpl. eauto.
Qed.

Lemma matchIso_digits (s : list N) (y m d : list N) :
  matchIso s = Some (y, m, d) ->
  0 <= Number_digits y <= 9999 /\ 0 <= Number_digits m <= 99 /\ 0 <= Number_digits d <= 99.
Proof.
  intros H. apply matchIso_inv in H.
  destruct H as (y1 & y2 & y3 & y4 & m1 & m2 & d1 & d2 & _ & -> & -> & -> & Hd).
  repeat match goal with
         | H : Forall _ (_ :: _) |- _ =>
             apply Forall_cons in H; destruct H as [?%isDigit_range H]
         end.
  unfold Number_digits; simpl. lia.
Qed.

Lemma MakeDay_bound (y mo d : Z) :
  0 <= y <= 9999 -> -1 <= mo <= 98 -> 0 <= d <= 99 ->
  -700000 <= MakeDay (MakeFullYear y) mo d <= 3000000.
Proof.
  intros Hy Hm Hd. unfold MakeDay.
  assert (0 <= monthStart (mo mod 12) (InLeapYear_of (MakeFullYear y + mo / 12)) <= 335) as Hs.
  { apply monthStart_bound; [zdiv | apply InLeapYear_of_bound]. }
  assert (99 <= MakeFullYear y + mo / 12 <= 10007) as Hym.
  { unfold MakeFullYear.
    destruct (Z.leb_spec 0 y), (Z.leb_spec y 99); simpl; zdiv. }
  revert Hs Hym. generalize (monthStart (mo mod 12) (InLeapYear_of (MakeFullYear y + mo / 12))).
  generalize (MakeFullYear y + mo / 12). intros ym ms Hs Hym.
  unfold DayFromYear. zdiv.
Qed.

Lemma isoDay_bound (s : list N) (day : Z) :
  isoDay s = Some day -> -700000 <= day <= 3000000.
Proof.
  unfold isoDay. destruct (matchIso s) as [[[y m] d]|] eqn:E; [|discriminate].
  intros [= <-]. apply matchIso_digits in E. apply MakeDay_bound; lia.
Qed.

Lemma localInstant_clip (day h mi s ms : Z) :
  -700000 <= day <= 3000001 -> 0 <= MakeTime h mi s ms < msPerDay ->
  TimeClip (localInstant day h mi s ms) = Some (localInstant day h mi s ms).
Proof.
  intros Hd Ht. apply TimeClip_in_range.
  pose proof LocalTZA_bound as Hz.
  unfold localInstant, UTC, MakeDate, maxTime. rewrite msPerDay_val in *. lia.
Qed.

Lemma setHours_localInstant (day h mi s ms h' mi' s' ms' : Z) :
  -700000 <= day <= 3000001 ->
  0 <= MakeTime h mi s ms < msPerDay -> 0 <= MakeTime h' mi' s' ms' < msPerDay ->
  setHours (Some (localInstant day h mi s ms)) h' mi' s' ms'
  = Some (localInstant day h' mi' s' ms').
Proof.
  intros Hd Ht Ht'. unfold setHours.
  unfold localInstant at 1. rewrite LocalTime_UTC, Day_MakeDate by assumption.
  apply localInstant_clip; assumption.
Qed.

Lemma hasIsoDate_isoDayOf (v : Val) : hasIsoDate v = true <-> is_Some (isoDayOf v).
Proof.
  destruct v; simpl; try (split; [discriminate | intros [? [=]]]).
  rewrite bool_decide_eq_true. unfold isoDay.
  destruct (matchIso s) as [[[y m] d]|]; split; eauto; intros [? [=]].
Qed.

Lemma hasIsoDate_isoDayOf_Some (v : Val) (day : Z) :
  isoDayOf v = Some day -> hasIsoDate v = true.
Proof. intros H. apply hasIsoDate_isoDayOf. eauto. Qed.

Lemma parseDate_iso (v : Val) (day : Z) :
  isoDayOf v = Some day -> parseDate v = Some (localInstant day 12 0 0 0).
Proof.
  intros H. pose proof H as Hb.
  destruct v; simpl in H; try discriminate.
  apply isoDay_bound in Hb.
  unfold isoDay in H. unfold parseDate.
  destruct (matchIso s) as [[[y m] d]|]; [|discriminate].
  injection H as <-. unfold Date_of_components.
  apply (localInstant_clip _ 12 0 0 0); [lia | vm_compute; split; congruence].
Qed.

Lemma atDayStart_iso (v : Val) (day : Z) :
  isoDayOf v = Some day -> atDayStart (parseDate v) = Some (localInstant day 0 0 0 0).
Proof.
  intros H. rewrite (parseDate_iso _ _ H). unfold atDayStart.
  destruct v; simpl in H; try discriminate. apply isoDay_bound in H.
  apply setHours_localInstant; [lia | vm_compute; split; congruence ..].
Qed.

Lemma atDayEnd_iso (v : Val) (day : Z) :
  isoDayOf v = Some day -> atDayEnd (parseDate v) = Some (localInstant day 23 59 59 999).
Proof.
  intros H. rewrite (parseDate_iso _ _ H). unfold atDayEnd.
  destruct v; simpl in H; try discriminate. apply isoDay_bound in H.
  apply setHours_localInstant; [lia | vm_compute; split; congruence ..].
Qed.

Lemma localInstant_val (day h mi s ms : Z) :
  localInstant day h mi s ms = day * 86400000 + MakeTime h mi s ms - LocalTZA.
Proof. reflexivity. Qed.

(** ** C1 and C3: the classifier *)

Lemma projectStatus_classify (p : Project) (now : Date) :
  projectStatus p now = classify p now.
Proof.
  unfold projectStatus, classify, latePledgePresent, preOrderPresent.
  rewrite !ToBoolean_JsOr, negb_orb. reflexivity.
Qed.

(** C1. [projectStatus] follows the first-match decision order of the
    specification: preview (flag, or neither date an ISO day-string),
    then upcoming ([atDayStart(launch) > now]), then, once
    [atDayEnd(end) < now], late-pledge, pre-order or archived, and
    otherwise promo or live. *)
Theorem projectStatus_decision_order (p : Project) (now : Date) :
  projectStatus p now = classify p now.
Proof.
  unfold projectStatus, classify, latePledgePresent, preOrderPresent.
  rewrite !ToBoolean_JsOr, negb_orb.
  reflexivity.
Qed.


(** ** The calendar: [YearFromTime], [MonthFromTime] and [DateFromTime]
    invert [MakeDay] *)

Lemma DaysInYear_leap (y : Z) : DaysInYear y = 365 + InLeapYear_of y.
Proof.
  unfold InLeapYear_of, DaysInYear.
  repeat match goal with |- context [negb ?b] => destruct b; simpl end; reflexivity.
Qed.

Lemma DayFromYear_step (y : Z) : DayFromYear (y + 1) = DayFromYear y + DaysInYear y.
Proof.
  unfold DayFromYear, DaysInYear.
  destruct (Z.eqb_spec (y mod 4) 0), (Z.eqb_spec (y mod 100) 0), (Z.eqb_spec (y mod 400) 0);
    simpl; Z.div_mod_to_equations; lia.
Qed.

Lemma DayFromYear_mono (a b : Z) : a <= b -> DayFromYear a <= DayFromYear b.
Proof. unfold DayFromYear. intros H. Z.div_mod_to_equations. lia. Qed.

Lemma YearFromDay_spec (d : Z) :
  DayFromYear (YearFromDay d) <= d < DayFromYear (YearFromDay d + 1).
Proof.
  unfold YearFromDay.
  set (y := 1970 + d * 400 / 146097).
  assert (DayFromYear (y - 1) <= d < DayFromYear (y + 2)) as Hb.
  { unfold DayFromYear, y. Z.div_mod_to_equations. lia. }
  destruct (Z.ltb_spec d (DayFromYear y)).
  - replace (y - 1 + 1) with y by lia. lia.
  - destruct (Z.leb_spec (DayFromYear (y + 1)) d).
    + replace (y + 1 + 1) with (y + 2) by lia. lia.
    + lia.
Qed.

Lemma YearFromDay_unique (d y : Z) :
  DayFromYear y <= d < DayFromYear (y + 1) -> YearFromDay d = y.
Proof.
  intros H. pose proof (YearFromDay_spec d) as Hs.
  destruct (Z.lt_trichotomy (YearFromDay d) y) as [Hlt | [Heq | Hgt]]; [|exact Heq|].
  - pose proof (DayFromYear_mono (YearFromDay d + 1) y ltac:(lia)). lia.
  - pose proof (DayFromYear_mono (y + 1) (YearFromDay d) ltac:(lia)). lia.
Qed.

Lemma MakeDay_calendar (y m d time : Z) :
  0 <= m < 12 -> 1 <= d <= DaysInMonth m (InLeapYear_of y) -> 0 <= time < msPerDay ->
  let t := MakeDate (MakeDay y m d) time in
  YearFromTime t = y /\ MonthFromTime t = m /\ DateFromTime t = d /\ TimeWithinDay t = time.
Proof.
  intros Hm Hd Ht t.
  pose proof (InLeapYear_of_bound y) as Hl.
  assert (Day t = MakeDay y m d) as HD by (apply Day_MakeDate; exact Ht).
  assert (MakeDay y m d = DayFromYear y + monthStart m (InLeapYear_of y) + d - 1) as HM.
  { unfold MakeDay. replace (m / 12) with 0 by (Z.div_mod_to_equations; lia).
    replace (m mod 12) with m by (Z.div_mod_to_equations; lia).
    rewrite Z.add_0_r. reflexivity. }
  assert (m = 0 \/ m = 1 \/ m = 2 \/ m = 3 \/ m = 4 \/ m = 5 \/ m = 6
          \/ m = 7 \/ m = 8 \/ m = 9 \/ m = 10 \/ m = 11) as Hc by lia.
  assert (YearFromTime t = y) as HY.
  { unfold YearFromTime. rewrite HD, HM. apply YearFromDay_unique.
    rewrite DayFromYear_step, DaysInYear_leap.
    decompose [or] Hc; subst m; simpl in *; lia. }
  assert (DayWithinYear t = monthStart m (InLeapYear_of y) + d - 1) as HW.
  { unfold DayWithinYear. rewrite HY, HD, HM. lia. }
  assert (MonthFromTime t = m) as HMo.
  { unfold MonthFromTime, InLeapYear. rewrite HW, HY.
    decompose [or] Hc; subst m; simpl in *;
      repeat match goal with
             | |- context [?a <? ?b] => destruct (Z.ltb_spec a b); try lia
             end. }
  repeat split; auto.
  - unfold DateFromTime, InLeapYear. rewrite HW, HMo, HY. lia.
  - unfold TimeWithinDay, t, MakeDate. rewrite msPerDay_val in *. Z.div_mod_to_equations. lia.
Qed.

(** The local calendar fields of a wall-clock reading on a calendar
    day are that day. *)
Lemma localInstant_calendar (y m d h mi sec ms : Z) :
  0 <= m < 12 -> 1 <= d <= DaysInMonth m (InLeapYear_of y) ->
  0 <= MakeTime h mi sec ms < msPerDay ->
  let now := Some (localInstant (MakeDay y m d) h mi sec ms) in
  getFullYear now = Some y /\ getMonth now = Some m /\ getDate now = Some d.
Proof.
  intros Hm Hd Ht now. unfold now, getFullYear, getMonth, getDate, localInstant. simpl.
  rewrite LocalTime_UTC.
  destruct (MakeDay_calendar y m d _ Hm Hd Ht) as (-> & -> & -> & _). auto.
Qed.

Example isoDay_2025_03_10 : isoDay (str "2025-03-10") = Some (MakeDay 2025 2 10).
Proof. reflexivity. Qed.

Example isoDay_two_digit_year : isoDay (str "0025-03-10") = Some (MakeDay 1925 2 10).
Proof. reflexivity. Qed.

Example isoDay_rollover : isoDay (str "2025-13-40") = Some (MakeDay 2026 1 9).
Proof. reflexivity. Qed.

(** ** C2 and C10: the live window of a dated project *)

Lemma projectStatus_dated (p : Project) (L E t : Z) :
  isoDayOf (launchDate p) = Some L ->
  isoDayOf (endDate p) = Some E ->
  ToBoolean (isPreview p) = false ->
  projectStatus p (Some t) =
    if t <? localInstant L 0 0 0 0 then str "upcoming"
    else if localInstant E 23 59 59 999 <? t
    then (if latePledgePresent p then str "late-pledge"
          else if preOrderPresent p then str "pre-order"
          else str "archived")
    else if ToBoolean (isPromo p) then str "promo" else str "live".
Proof.
  intros HL HE Hp. rewrite projectStatus_classify. unfold classify.
  rewrite Hp, (hasIsoDate_isoDayOf_Some _ _ HL), (atDayStart_iso _ _ HL), (atDayEnd_iso _ _ HE).
  reflexivity.
Qed.


(** C10. The ISO-day check is syntactic: every string of four digits, a
    hyphen, two digits, a hyphen and two digits passes [hasIsoDate],
    whatever the digits; a project without preview flag whose launch or end
    date is such a string is never classified preview but gets one of the
    six dated statuses; and the [Date] constructor rolls out-of-range
    components over: "2025-13-40" is read as local noon of 9 February
    2026. *)
Theorem hasIsoDate_syntactic :
  (forall s, isoShaped s -> hasIsoDate (JStr s) = true)
  /\ (forall (p : Project) (now : Date) s,
        isoShaped s -> launchDate p = JStr s \/ endDate p = JStr s ->
        ToBoolean (isPreview p) = false ->
        In (projectStatus p now) datedStatuses
        /\ projectStatus p now <> str "preview")
  /\ hasIsoDate (JStr (str "2025-13-40")) = true
  /\ parseDate (JStr (str "2025-13-40")) = Some (localInstant (MakeDay 2026 1 9) 12 0 0 0).
Proof.
  assert (forall s, isoShaped s -> hasIsoDate (JStr s) = true) as Hshape.
  { intros s Hs. simpl. apply bool_decide_eq_true. apply matchIso_shaped. exact Hs. }
  split; [exact Hshape|]. split; [|split].
  - intros p now s Hs Hd Hp.
    assert (hasIsoDate (launchDate p) || hasIsoDate (endDate p) = true) as Hany.
    { destruct Hd as [-> | ->]; rewrite (Hshape _ Hs); auto using orb_true_r. }
    rewrite projectStatus_classify. unfold classify. rewrite Hp, Hany. simpl.
    unfold datedStatuses.
    repeat match goal with
           | |- context [if ?b then _ else _] => destruct b
           end; simpl; split; try tauto; discriminate.
  - reflexivity.
  - apply (parseDate_iso (JStr (str "2025-13-40"))). reflexivity.
Qed.

(** ** C6: just launched *)

Lemma num_eq_true (a b : option Z) :
  num_eq a b = true <-> exists x, a = Some x /\ b = Some x.
Proof.
  destruct a as [x|], b as [y|]; simpl; try (split; [discriminate | intros (? & [=] & [=])]).
  rewrite Z.eqb_eq. split.
  - intros ->; eauto.
  - intros (? & [= ->] & [= ->]); reflexivity.
Qed.

Lemma calendar_of_Day (t1 t2 : Z) :
  Day t1 = Day t2 ->
  YearFromTime t1 = YearFromTime t2
  /\ MonthFromTime t1 = MonthFromTime t2
  /\ DateFromTime t1 = DateFromTime t2.
Proof.
  intros H.
  assert (YearFromTime t1 = YearFromTime t2) as Hy by (unfold YearFromTime; congruence).
  assert (DayWithinYear t1 = DayWithinYear t2) as Hd by (unfold DayWithinYear; congruence).
  assert (InLeapYear t1 = InLeapYear t2) as Hl by (unfold InLeapYear; congruence).
  assert (MonthFromTime t1 = MonthFromTime t2) as Hm
    by (unfold MonthFromTime; rewrite Hd, Hl; reflexivity).
  repeat split; auto. unfold DateFromTime. rewrite Hd, Hm, Hl. reflexivity.
Qed.

(** The calendar fields determine the day number. *)
Lemma Day_of_calendar (t : Z) :
  Day t = DayFromYear (YearFromTime t)
          + monthStart (MonthFromTime t) (InLeapYear_of (YearFromTime t))
          + DateFromTime t - 1.
Proof. unfold DateFromTime, DayWithinYear, InLeapYear. lia. Qed.

Lemma isSameLocalDay_Day (a b : Date) :
  isSameLocalDay a b = true <->
  exists ta tb, a = Some ta /\ b = Some tb /\ Day (LocalTime ta) = Day (LocalTime tb).
Proof.
  unfold isSameLocalDay. rewrite !andb_true_iff, !num_eq_true.
  unfold getFullYear, getMonth, getDate.
  destruct a as [ta|], b as [tb|]; simpl.
  - split.
    + intros [[(y & [= Hy1] & [= Hy2]) (m & [= Hm1] & [= Hm2])] (d & [= Hd1] & [= Hd2])].
      exists ta, tb. repeat split; auto.
      rewrite (Day_of_calendar (LocalTime ta)), (Day_of_calendar (LocalTime tb)). congruence.
    + intros (? & ? & [= <-] & [= <-] & H).
      destruct (calendar_of_Day _ _ H) as (-> & -> & ->). eauto 10.
  - split; [intros [[(? & _ & [=]) _] _] | intros (? & ? & _ & [=] & _)].
  - split; [intros [[(? & [=] & _) _] _] | intros (? & ? & [=] & _ & _)].
  - split; [intros [[(? & [=] & _) _] _] | intros (? & ? & [=] & _ & _)].
Qed.

Lemma isSameLocalDay_atDayStart (v : Val) (now : Date) :
  hasIsoDate v = true ->
  isSameLocalDay (atDayStart (parseDate v)) now = isSameLocalDay (parseDate v) now.
Proof.
  intros [day Hday]%hasIsoDate_isoDayOf.
  rewrite (atDayStart_iso _ _ Hday), (parseDate_iso _ _ Hday).
  assert (Day (LocalTime (localInstant day 0 0 0 0)) = Day (LocalTime (localInstant day 12 0 0 0))) as H.
  { unfold localInstant. rewrite !LocalTime_UTC, !Day_MakeDate; [reflexivity | vm_compute; split; congruence ..]. }
  destruct (calendar_of_Day _ _ H) as (Hy & Hm & Hd).
  unfold isSameLocalDay, getFullYear, getMonth, getDate. simpl. rewrite Hy, Hm, Hd. reflexivity.
Qed.

Lemma includes_live_promo (s : list N) :
  includes [str "live"; str "promo"] s = true <-> s = str "live" \/ s = str "promo".
Proof.
  unfold includes. cbn [existsb]. rewrite !orb_true_iff, !strEq_spec.
  intuition discriminate.
Qed.

Lemma isSameLocalDay_spec (a b : Date) :
  isSameLocalDay a b = true <-> sameCalendarDay a b.
Proof.
  unfold isSameLocalDay, sameCalendarDay. rewrite !andb_true_iff, !num_eq_true. split.
  - intros [[(y & ? & ?) (m & ? & ?)] (d & ? & ?)]. exists y, m, d. auto 10.
  - intros (y & m & d & ? & ? & ? & ? & ? & ?). eauto 10.
Qed.

(** C6. [projectIsJustLaunched] holds exactly when the status is live or
    promo, the launch date is an ISO day-string, and the parsed launch day
    and [now] have the same local year, month and day.  A project with
    launch 2025-03-10 and end 2025-03-17 (no preview or promo flag) is
    live and just launched at 08:00 local time on 2025-03-10. *)
Theorem projectIsJustLaunched_iff :
  (forall (p : Project) (now : Date),
     projectIsJustLaunched p now = true <->
     (projectStatus p now = str "live" \/ projectStatus p now = str "promo")
     /\ hasIsoDate (launchDate p) = true
     /\ sameCalendarDay (parseDate (launchDate p)) now)
  /\ (forall p : Project,
        launchDate p = JStr (str "2025-03-10") ->
        endDate p = JStr (str "2025-03-17") ->
        ToBoolean (isPreview p) = false ->
        ToBoolean (isPromo p) = false ->
        let now := Some (localInstant (MakeDay 2025 2 10) 8 0 0 0) in
        projectStatus p now = str "live" /\ projectIsJustLaunched p now = true).
Proof.
  assert (forall (p : Project) (now : Date),
     projectIsJustLaunched p now = true <->
     (projectStatus p now = str "live" \/ projectStatus p now = str "promo")
     /\ hasIsoDate (launchDate p) = true
     /\ sameCalendarDay (parseDate (launchDate p)) now) as Hiff.
  { intros p now. unfold projectIsJustLaunched.
    rewrite <- includes_live_promo, <- isSameLocalDay_spec.
    destruct (includes _ _); simpl; [|split; [discriminate | intros [[=] _]]].
    destruct (hasIsoDate (launchDate p)) eqn:Hl; simpl;
      [|split; [discriminate | intros (_ & [=] & _)]].
    rewrite isSameLocalDay_atDayStart by assumption. tauto. }
  split; [exact Hiff|].
  intros p HL HE Hpre Hpromo now.
  assert (projectStatus p now = str "live") as Hst.
  { unfold now. rewrite (projectStatus_dated p (MakeDay 2025 2 10) (MakeDay 2025 2 17))
      by (rewrite ?HL, ?HE; auto).
    rewrite Hpromo, !localInstant_val.
    repeat match goal with
           | |- context [?a <? ?b] => destruct (Z.ltb_spec a b)
           end; try reflexivity; vm_compute MakeDay in *; vm_compute MakeTime in *; lia. }
  split; [exact Hst|].
  apply Hiff. split; [auto|]. rewrite HL. split; [reflexivity|].
  apply isSameLocalDay_spec, isSameLocalDay_Day.
  rewrite (parseDate_iso (JStr (str "2025-03-10")) (MakeDay 2025 2 10)) by reflexivity.
  eexists _, _. split; [reflexivity|]. split; [reflexivity|].
  unfold localInstant. rewrite !LocalTime_UTC, !Day_MakeDate; [reflexivity | vm_compute; split; congruence ..].
Qed.

(** ** C7: countdown text *)

Lemma dayDiff_ceiling (t u : Z) :
  exists n, dayDiff (Some t) (Some u) = Some n
            /\ (n - 1) * msPerDay < u - t <= n * msPerDay.
Proof.
  unfold dayDiff, num_sub, getTime. eexists; split; [reflexivity|].
  rewrite msPerDay_val. zdiv.
Qed.

Lemma includes_In (l : list (list N)) (s : list N) :
  includes l s = true <-> In s l.
Proof.
  unfold includes. rewrite existsb_exists. split.
  - intros (x & Hx & ->%strEq_spec). exact Hx.
  - intros H. exists s. split; [exact H | apply strEq_refl].
Qed.


(** ** C5: archive priority *)

Lemma rank_cases (now : Z) (p : Project) :
  (projectStatus p (Some now) = str "late-pledge" -> rank now p = 0)
  /\ (projectStatus p (Some now) = str "pre-order" -> rank now p = 1)
  /\ (projectStatus p (Some now) <> str "late-pledge" ->
      projectStatus p (Some now) <> str "pre-order" -> rank now p = 2).
Proof.
  unfold rank. repeat split.
  - intros ->. reflexivity.
  - intros ->. reflexivity.
  - intros H1%strEq_false H2%strEq_false. rewrite H1, H2. reflexivity.
Qed.

(** C5. The primary key of [byArchivePriority] is the rank of the
    classified status, 0 for late-pledge, 1 for pre-order and 2 for every
    other status: when the ranks differ the result is their difference,
    whatever the end dates, so a late-pledge project sorts before a
    pre-order one and both before a plainly archived one.  With equal ranks
    the result is the end time of [b] minus that of [a]: the project that
    ended more recently sorts first. *)
Theorem byArchivePriority_order (now_a now_b : Z) (a b : Project) :
  let result := byArchivePriority now_a now_b a b in
  let status_a := projectStatus a (Some now_a) in
  let status_b := projectStatus b (Some now_b) in
  rank now_a a = (if strEq status_a (str "late-pledge") then 0
                  else if strEq status_a (str "pre-order") then 1 else 2)
  /\ (rank now_a a <> rank now_b b -> result = Some (rank now_a a - rank now_b b))
  /\ (status_a = str "late-pledge" -> status_b = str "pre-order" ->
      exists v, result = Some v /\ v < 0)
  /\ (status_a = str "pre-order" -> status_b = str "archived" ->
      exists v, result = Some v /\ v < 0)
  /\ (status_a = str "late-pledge" -> status_b = str "archived" ->
      exists v, result = Some v /\ v < 0)
  /\ (rank now_a a = rank now_b b ->
      result = num_sub (getTime (parseDate (endDate b))) (getTime (parseDate (endDate a)))
      /\ forall ta tb,
           getTime (parseDate (endDate a)) = Some ta ->
           getTime (parseDate (endDate b)) = Some tb ->
           exists v, result = Some v /\ (v < 0 <-> tb < ta) /\ (0 < v <-> ta < tb)).
Proof.
  intros result status_a status_b. subst result.
  assert (forall ra rb, ra <> rb ->
            (if negb (ra - rb =? 0) then Some (ra - rb)
             else num_sub (getTime (parseDate (endDate b))) (getTime (parseDate (endDate a))))
            = Some (ra - rb)) as Hne.
  { intros ra rb H. destruct (Z.eqb_spec (ra - rb) 0); [lia | reflexivity]. }
  split; [reflexivity|]. split; [|split; [|split; [|split]]].
  - intros H. unfold byArchivePriority. apply Hne. exact H.
  - intros Ha Hb. unfold byArchivePriority, rank. fold status_a status_b.
    rewrite Ha, Hb. eexists; split; [reflexivity | reflexivity].
  - intros Ha Hb. unfold byArchivePriority, rank. fold status_a status_b.
    rewrite Ha, Hb. eexists; split; [reflexivity | reflexivity].
  - intros Ha Hb. unfold byArchivePriority, rank. fold status_a status_b.
    rewrite Ha, Hb. eexists; split; [reflexivity | reflexivity].
  - intros Heq. unfold byArchivePriority. rewrite Heq, Z.sub_diag. cbn [Z.eqb negb].
    split; [reflexivity|]. intros ta tb -> ->. cbn [num_sub].
    eexists; split; [reflexivity|]. lia.
Qed.

(** ** C4: ordering by end date *)

Lemma endTime_valid (p : Project) : validEnd p -> exists t, endTime p = Some t.
Proof.
  intros [day Hday]%hasIsoDate_isoDayOf. unfold endTime, getTime.
  rewrite (parseDate_iso _ _ Hday). eauto.
Qed.

Lemma byEndAsc_precedes (a b : Project) :
  precedes byEndAsc a b <-> ~ validEnd b \/ (validEnd a /\ endsNoLater a b).
Proof.
  unfold precedes, byEndAsc, validEnd, endsNoLater.
  destruct (hasIsoDate (endDate a)) eqn:Ha, (hasIsoDate (endDate b)) eqn:Hb; simpl.
  - destruct (endTime_valid a Ha) as [ta Hta], (endTime_valid b Hb) as [tb Htb].
    unfold endTime in *. rewrite Hta, Htb. simpl. rewrite Z.ltb_ge. split.
    + intros H. right. split; [reflexivity|]. exists ta, tb. repeat split; lia.
    + intros [H | [_ (ta' & tb' & [= <-] & [= <-] & H)]]; [congruence | lia].
  - split; auto; intros _; left; discriminate.
  - split; [discriminate|]. intros [H | [[=] _]]. congruence.
  - split; auto; intros _; left; discriminate.
Qed.

Lemma byEndAsc_asym (x y : Project) :
  comesAfter (byEndAsc y x) = true -> precedes byEndAsc x y.
Proof.
  intros H. apply byEndAsc_precedes. revert H.
  unfold byEndAsc, validEnd, endsNoLater.
  destruct (hasIsoDate (endDate x)) eqn:Hx, (hasIsoDate (endDate y)) eqn:Hy; simpl;
    try discriminate.
  - destruct (endTime_valid x Hx) as [tx Htx], (endTime_valid y Hy) as [ty Hty].
    unfold endTime in *. rewrite Htx, Hty. simpl. rewrite Z.ltb_lt. intros H.
    right. split; [reflexivity|]. exists tx, ty. repeat split; lia.
  - intros _. left. discriminate.
Qed.

Lemma byEndAsc_trans (x y z : Project) :
  precedes byEndAsc x y -> precedes byEndAsc y z -> precedes byEndAsc x z.
Proof.
  rewrite !byEndAsc_precedes.
  intros [Hy | [Hx (tx & ty & Htx & Hty & Hxy)]] [Hz | [Hy' (ty' & tz & Hty' & Htz & Hyz)]];
    auto; try contradiction.
  right. split; [exact Hx|]. exists tx, tz. repeat split; auto. congruence || (rewrite Hty in Hty'; injection Hty' as <-; lia).
Qed.

Lemma byEndAsc_sorted_shape (r : list Project) :
  StronglySorted (precedes byEndAsc) r ->
  exists vs ivs,
    r = vs ++ ivs /\ Forall validEnd vs /\ Forall (fun p => ~ validEnd p) ivs
    /\ StronglySorted endsNoLater vs.
Proof.
  induction 1 as [|a r Hr IH Ha].
  - exists [], []. repeat split; constructor.
  - destruct IH as (vs & ivs & -> & Hvs & Hivs & Hsorted).
    destruct (hasIsoDate (endDate a)) eqn:E.
    + exists (a :: vs), ivs. repeat split; auto.
      constructor; [exact Hsorted|].
      apply Forall_app in Ha. destruct Ha as [Ha _].
      rewrite Forall_forall in *. intros b Hb.
      destruct (proj1 (byEndAsc_precedes a b) (Ha b Hb)) as [Hn | [_ H]]; [|exact H].
      exfalso. apply Hn. apply Hvs. exact Hb.
    + exists [], (a :: vs ++ ivs). repeat split; try constructor.
      * unfold validEnd. congruence.
      * rewrite Forall_forall in *. intros b Hb.
        destruct (proj1 (byEndAsc_precedes a b) (Ha b Hb)) as [Hn | [Hv _]]; [exact Hn|].
        unfold validEnd in Hv. congruence.
Qed.

(** C4. [byEndAsc] puts a record without an ISO end date after a record
    with one, orders two records with ISO end dates by the difference of
    their parsed end times (ascending), and returns 0 for two records
    without; sorting a list with it gives a permutation in which the
    records with an ISO end date come first, in ascending end time, and
    those without come last.  The same holds of every list in which no
    record is followed by one the comparator wants before it. *)
Theorem byEndAsc_order :
  (forall a b : Project, ~ validEnd a -> validEnd b ->
     byEndAsc a b = Some 1 /\ byEndAsc b a = Some (-1))
  /\ (forall a b : Project, validEnd a -> validEnd b ->
        exists ta tb, endTime a = Some ta /\ endTime b = Some tb
                      /\ byEndAsc a b = Some (ta - tb))
  /\ (forall a b : Project, ~ validEnd a -> ~ validEnd b -> byEndAsc a b = Some 0)
  /\ (forall l : list Project,
        let sorted := Array_sort byEndAsc l in
        Permutation l sorted
        /\ exists vs ivs,
             sorted = vs ++ ivs /\ Forall validEnd vs /\ Forall (fun p => ~ validEnd p) ivs
             /\ StronglySorted endsNoLater vs)
  /\ (forall r : list Project,
        StronglySorted (precedes byEndAsc) r ->
        exists vs ivs,
          r = vs ++ ivs /\ Forall validEnd vs /\ Forall (fun p => ~ validEnd p) ivs
          /\ StronglySorted endsNoLater vs).
Proof.
  split; [|split; [|split; [|split; [|exact byEndAsc_sorted_shape]]]]; unfold validEnd.
  - intros a b Ha Hb. unfold byEndAsc.
    destruct (hasIsoDate (endDate a)); [contradiction|]. rewrite Hb. auto.
  - intros a b Ha Hb. destruct (endTime_valid a Ha) as [ta Hta], (endTime_valid b Hb) as [tb Htb].
    exists ta, tb. unfold byEndAsc. rewrite Ha, Hb. unfold endTime in *. rewrite Hta, Htb.
    auto.
  - intros a b Ha Hb. unfold byEndAsc.
    destruct (hasIsoDate (endDate a)); [contradiction|].
    destruct (hasIsoDate (endDate b)); [contradiction|]. reflexivity.
  - intros l. cbv zeta. split.
    + apply Array_sort_perm.
    + apply byEndAsc_sorted_shape. apply Array_sort_sorted.
      * exact byEndAsc_asym.
      * exact byEndAsc_trans.
Qed.

(** ** Trimming *)

Lemma dropWhile_suffix {A} (f : A -> bool) (l : list A) :
  exists pre, l = pre ++ dropWhile f l /\ Forall (fun x => f x = true) pre.
Proof.
  induction l as [|x r (pre & Hpre & Hf)]; simpl.
  - exists []. split; [reflexivity | constructor].
  - destruct (f x) eqn:E.
    + exists (x :: pre). split; [simpl; congruence | constructor; assumption].
    + exists []. split; [reflexivity | constructor].
Qed.

Lemma dropWhile_head {A} (f : A -> bool) (l : list A) (x : A) :
  head (dropWhile f l) = Some x -> f x = false.
Proof.
  induction l as [|y r IH]; simpl; [discriminate|].
  destruct (f y) eqn:E; [exact IH|]. simpl. intros [= <-]. exact E.
Qed.

Lemma dropWhile_fixed {A} (f : A -> bool) (l : list A) :
  (forall x, head l = Some x -> f x = false) -> dropWhile f l = l.
Proof.
  destruct l as [|y r]; simpl; [reflexivity|].
  intros H. rewrite (H y eq_refl). reflexivity.
Qed.

Lemma dropWhile_last {A} (f : A -> bool) (l : list A) (x : A) :
  last (dropWhile f l) = Some x -> last l = Some x.
Proof.
  destruct (dropWhile_suffix f l) as (pre & Hl & _).
  intros H. rewrite Hl. destruct (dropWhile f l) as [|y r] eqn:E; [discriminate|].
  rewrite last_app, H. reflexivity.
Qed.

Lemma head_rev {A} (l : list A) : head (rev l) = last l.
Proof.
  induction l as [|x r IH] using rev_ind; [reflexivity|].
  rewrite rev_app_distr, last_snoc. reflexivity.
Qed.

Lemma last_rev {A} (l : list A) : last (rev l) = head l.
Proof. rewrite <- head_rev, rev_involutive. reflexivity. Qed.

Lemma trimEnds_head (f : N -> bool) (s : list N) (x : N) :
  head (trimEnds f s) = Some x -> f x = false.
Proof.
  unfold trimEnds. rewrite head_rev. intros H%dropWhile_last.
  rewrite last_rev in H. eapply dropWhile_head; exact H.
Qed.

Lemma trimEnds_last (f : N -> bool) (s : list N) (x : N) :
  last (trimEnds f s) = Some x -> f x = false.
Proof.
  unfold trimEnds. rewrite last_rev. apply dropWhile_head.
Qed.

Lemma trimEnds_infix (f : N -> bool) (s : list N) :
  exists pre post, s = pre ++ trimEnds f s ++ post.
Proof.
  unfold trimEnds.
  destruct (dropWhile_suffix f s) as (pre & Hs & _).
  destruct (dropWhile_suffix f (rev (dropWhile f s))) as (post & Hr & _).
  exists pre, (rev post). rewrite <- rev_app_distr, <- Hr, rev_involutive. exact Hs.
Qed.

Lemma trimEnds_idem (f : N -> bool) (s : list N) :
  trimEnds f (trimEnds f s) = trimEnds f s.
Proof.
  unfold trimEnds at 1.
  rewrite (dropWhile_fixed f (trimEnds f s)) by apply trimEnds_head.
  rewrite (dropWhile_fixed f (rev (trimEnds f s))).
  - apply rev_involutive.
  - intros x. rewrite head_rev. apply trimEnds_last.
Qed.

Lemma trim_idem (s : list N) : trim (trim s) = trim s.
Proof. apply trimEnds_idem. Qed.

(** ** The derived slug *)

Lemma isSlugChar_HYPHEN : isSlugChar HYPHEN = false.
Proof. reflexivity. Qed.

Lemma hyphenateRuns_chars (b : bool) (s : list N) :
  Forall (fun c => isSlugChar c = true \/ c = HYPHEN) (hyphenateRuns b s).
Proof.
  revert b; induction s as [|c r IH]; intros b; simpl; [constructor|].
  destruct (isSlugChar c) eqn:E; [constructor; auto|].
  destruct b; [apply IH | constructor; auto].
Qed.

Lemma hyphenateRuns_in_run (s : list N) :
  head (hyphenateRuns true s) <> Some HYPHEN.
Proof.
  induction s as [|c r IH]; simpl; [discriminate|].
  destruct (isSlugChar c) eqn:E; [|exact IH].
  simpl. intros [= ->]. discriminate.
Qed.

Lemma hyphenateRuns_single (b : bool) (s : list N) :
  forall l1 l2, hyphenateRuns b s <> l1 ++ [HYPHEN; HYPHEN] ++ l2.
Proof.
  revert b; induction s as [|c r IH]; intros b l1 l2; simpl.
  - destruct l1; discriminate.
  - destruct (isSlugChar c) eqn:E.
    + destruct l1 as [|x l1]; simpl.
      * intros [= -> _]. discriminate.
      * intros [= _ H]. exact (IH _ _ _ H).
    + destruct b; [apply IH|].
      destruct l1 as [|x l1]; simpl.
      * intros [= H]. apply (hyphenateRuns_in_run r). rewrite H. reflexivity.
      * intros [= _ H]. exact (IH _ _ _ H).
Qed.

Lemma slugify_shape (v : Val) : slugShape (slugify v).
Proof.
  unfold slugify.
  set (body := hyphenateRuns false _).
  destruct (trimEnds_infix isHyphen body) as (pre & post & Hbody).
  repeat split.
  - pose proof (hyphenateRuns_chars false
      (filter (fun c => negb (isCombiningMark c))
         (normalizeNFKD (toLowerCase (ToString match v with JUndefined => JStr [] | _ => v end)))))
      as H.
    fold body in H. rewrite Hbody in H.
    apply Forall_app in H as [_ H]. apply Forall_app in H as [H _]. exact H.
  - intros H%trimEnds_head. discriminate.
  - intros H%trimEnds_last. discriminate.
  - intros l1 l2 H.
    apply (hyphenateRuns_single false
      (filter (fun c => negb (isCombiningMark c))
         (normalizeNFKD (toLowerCase (ToString match v with JUndefined => JStr [] | _ => v end))))
      (pre ++ l1) (l2 ++ post)).
    fold body. rewrite Hbody at 1. rewrite H, <- !app_assoc. reflexivity.
Qed.

(** ** C8: enrichment *)

Lemma byName_lookup (registry : list Person) (n : list N) :
  byName registry !! toLowerCase n = registryMatch registry n.
Proof.
  unfold byName, Map_of, registryMatch.
  assert (forall (m : gmap (list N) Person) found,
            m !! toLowerCase n = found ->
            fold_left (fun m kv => <[kv.1 := kv.2]> m)
              (map (fun d => (toLowerCase (ToString (JsOr (name d) (JStr []))), d)) registry) m
              !! toLowerCase n
            = fold_left (fun found d => if sameNameIgnoringCase n d then Some d else found)
                registry found) as H.
  { induction registry as [|d r IH]; intros m found Hm; simpl; [exact Hm|].
    apply IH. unfold sameNameIgnoringCase.
    destruct (strEq _ (toLowerCase n)) eqn:E.
    - apply strEq_spec in E. rewrite E. apply lookup_insert_eq.
    - apply strEq_false in E. rewrite lookup_insert_ne by exact E. exact Hm. }
  apply H. apply lookup_empty.
Qed.

Lemma registryMatch_Some (registry : list Person) (n : list N) (d : Person) :
  registryMatch registry n = Some d -> In d registry /\ sameNameIgnoringCase n d = true.
Proof.
  unfold registryMatch.
  assert (forall found,
            fold_left (fun found d => if sameNameIgnoringCase n d then Some d else found)
              registry found = Some d ->
            found = Some d \/ (In d registry /\ sameNameIgnoringCase n d = true)) as H.
  { induction registry as [|x r IH]; intros found Hf; simpl in *; [auto|].
    destruct (IH _ Hf) as [Hx | [Hin Hs]]; [|tauto].
    destruct (sameNameIgnoringCase n x) eqn:E; [|auto].
    injection Hx as ->. auto. }
  intros Hf. destruct (H None Hf) as [[=] | ?]; assumption.
Qed.

Lemma registryMatch_None (registry : list Person) (n : list N) :
  registryMatch registry n = None <->
  forall d, In d registry -> sameNameIgnoringCase n d = false.
Proof.
  unfold registryMatch.
  assert (forall found,
            fold_left (fun found d => if sameNameIgnoringCase n d then Some d else found)
              registry found = None <->
            found = None /\ forall d, In d registry -> sameNameIgnoringCase n d = false) as H.
  { induction registry as [|x r IH]; intros found; simpl.
    - split; [intros ->; split; [reflexivity | contradiction] | tauto].
    - rewrite IH. destruct (sameNameIgnoringCase n x) eqn:E.
      + split; [intros [[=] _] | intros [_ H]]. rewrite (H x) in E by auto. discriminate.
      + split; intros [-> H]; split; auto. intros d [<- | Hd]; auto. }
  rewrite H. tauto.
Qed.

Lemma JsOr_slugOf (m : option Person) (fallback : Val) :
  JsOr (slugOf m) fallback =
  match m with
  | Some d => if ToBoolean (slug d) then slug d else fallback
  | None => fallback
  end.
Proof. destruct m; reflexivity. Qed.

Lemma slugify_ToString (v : Val) :
  ToBoolean v = true -> slugify (JStr (ToString v)) = slugify v.
Proof. destruct v; simpl; try discriminate; reflexivity. Qed.

Lemma normalized_names (names : list (list N)) :
  Forall normalizedSlug names ->
  filter nonEmpty (map (fun n : Val => trim (ToString (JsOr n (JStr [])))) (map JStr names))
  = names.
Proof.
  induction 1 as [|n r [Hne Htrim] Hr IH]; [reflexivity|].
  cbn [map]. unfold JsOr at 1. cbn [ToBoolean].
  apply strEq_false in Hne as Hne'. rewrite Hne'. cbn [negb ToString]. rewrite Htrim.
  rewrite filter_cons_True by (unfold nonEmpty; rewrite Hne'; exact I).
  rewrite IH. reflexivity.
Qed.

Lemma slugify_ascii (s : list N) :
  forallb isAscii s = true ->
  slugify (JStr s)
  = trimEnds isHyphen
      (hyphenateRuns false (filter (fun c => negb (isCombiningMark c)) (map asciiLower s))).
Proof.
  intros Hs. unfold slugify. cbn [ToString].
  rewrite (toLowerCase_ascii s Hs), normalizeNFKD_ascii; [reflexivity|].
  rewrite forallb_forall in *. intros c [x [<- Hx]]%in_map_iff.
  specialize (Hs x Hx). unfold isAscii, asciiLower, isUpperAlpha in *.
  destruct (_ && _) eqn:E; [|exact Hs].
  apply andb_true_iff in E. rewrite !N.leb_le in E. apply N.ltb_lt. lia.
Qed.

Lemma designerItems_enrich (dm pm : gmap (list N) Person) (project : Project) :
  designerItems (enrichProject dm pm project)
  = map (fun n => {| item_name := n;
                     item_slug := JsOr (slugOf (dm !! toLowerCase n)) (JStr (slugify (JStr n))) |})
        (designerNamesOf project).
Proof. reflexivity. Qed.

Lemma item_names_enrich (dm pm : gmap (list N) Person) (project : Project) :
  map item_name (designerItems (enrichProject dm pm project)) = designerNamesOf project.
Proof.
  rewrite designerItems_enrich, map_map. apply map_id.
Qed.

(** C8 (as amended).  [enrichProjects] resolves each designer name and
    the publisher name in the registries by equality of the lower-cased
    names and gives each a slug: the slug of the matching entry when there
    is one and its slug is truthy (not empty), the derived slug otherwise.
    The designer items follow the input order.  A derived slug consists of
    [a-z0-9] and single hyphens, none at either end.  "Ada Lovelace" gets
    the slug "ada-lovelace" without a registry entry and "ada-l" with an
    entry of that slug. *)
Theorem enrichProjects_resolves :
  (forall data : Content,
     let ds := default [] (data_designers data) in
     let ps := default [] (data_publishers data) in
     Forall2 (fun project e =>
        spread e = project
        /\ Forall (fun i => item_slug i = resolvedSlug ds (item_name i)) (designerItems e)
        /\ designerSlugs e = map item_slug (designerItems e)
        /\ (forall names,
              designers project = JArr (map JStr names) -> Forall normalizedSlug names ->
              map item_name (designerItems e) = names)
        /\ (ToBoolean (publisher project) = true ->
            publisherSlug e = resolvedSlug ps (ToString (publisher project))))
       (data_projects data) (enrichProjects data))
  /\ (forall (registry : list Person) (n : list N),
        match registryMatch registry n with
        | Some d => In d registry /\ sameNameIgnoringCase n d = true
        | None => forall d, In d registry -> sameNameIgnoringCase n d = false
        end)
  /\ (forall v, slugShape (slugify v))
  /\ (forall (p : Project) (entry : Person) (others : option (list Person)),
        designer p = JStr (str "Ada Lovelace") -> designers p = JUndefined ->
        name entry = JStr (str "ADA LOVELACE") -> slug entry = JStr (str "ada-l") ->
        map designerItems
          (enrichProjects {| data_projects := [p]; data_designers := None;
                             data_publishers := others |})
        = [[{| item_name := str "Ada Lovelace"; item_slug := JStr (str "ada-lovelace") |}]]
        /\ map designerItems
             (enrichProjects {| data_projects := [p]; data_designers := Some [entry];
                                data_publishers := others |})
           = [[{| item_name := str "Ada Lovelace"; item_slug := JStr (str "ada-l") |}]]).
Proof.
  split; [|split; [|split]].
  - intros data ds ps. unfold enrichProjects. fold ds ps.
    apply Forall2_fmap_r, Forall_Forall2_diag, Forall_forall. intros project _.
    split; [reflexivity|]. split; [|split; [reflexivity|split]].
    + rewrite designerItems_enrich. apply Forall_map, Forall_forall. intros n _.
      cbn [item_slug item_name]. rewrite byName_lookup, JsOr_slugOf. reflexivity.
    + intros names Hd Hn. rewrite item_names_enrich. unfold designerNamesOf. rewrite Hd.
      apply normalized_names. exact Hn.
    + intros Hp. unfold enrichProject. cbn [publisherSlug].
      rewrite Hp, byName_lookup, JsOr_slugOf. unfold resolvedSlug.
      rewrite (slugify_ToString _ Hp). reflexivity.
  - intros registry n. destruct (registryMatch registry n) as [d|] eqn:E.
    + apply registryMatch_Some. exact E.
    + apply registryMatch_None. exact E.
  - exact slugify_shape.
  - intros p entry others Hd Hds Hn Hs.
    assert (slugify (JStr (str "Ada Lovelace")) = str "ada-lovelace") as Hslug
      by (rewrite slugify_ascii; reflexivity).
    assert (toLowerCase (str "Ada Lovelace") = str "ada lovelace") as Hlow
      by (rewrite toLowerCase_ascii; reflexivity).
    unfold enrichProjects. cbn [data_projects data_designers data_publishers default map].
    rewrite !designerItems_enrich. unfold designerNamesOf. rewrite Hd, Hds.
    change (filter nonEmpty (map trim (split COMMA (ToString (JsOr (JStr (str "Ada Lovelace")) (JStr []))))))
      with [str "Ada Lovelace"].
    cbn [map ToString]. rewrite !byName_lookup, !JsOr_slugOf, Hslug.
    unfold registryMatch, sameNameIgnoringCase. cbn [fold_left id]. rewrite Hn.
    change (JsOr (JStr (str "ADA LOVELACE")) (JStr [])) with (JStr (Num := Num) (str "ADA LOVELACE")).
    cbn [ToString]. rewrite Hlow, (toLowerCase_ascii (str "ADA LOVELACE")) by reflexivity.
    change (strEq (map asciiLower (str "ADA LOVELACE")) (str "ada lovelace")) with true.
    cbv iota. rewrite Hs. split; reflexivity.
Qed.

(** ** C9: the watchlist *)

Lemma keepUnique_inv (acc : list (list N) * gset (list N)) (item : Val) :
  uniqueInv acc -> uniqueInv (keepUnique acc item).
Proof.
  intros (Hnd & Hnorm & Hseen). unfold keepUnique.
  set (slug := trim (ToString (JsOr item (JStr [])))).
  destruct (strEq slug []) eqn:E; simpl; [repeat split; auto; apply Hseen|].
  destruct (bool_decide (slug ∈ acc.2)) eqn:D; [repeat split; auto; apply Hseen|].
  apply bool_decide_eq_false in D. apply strEq_false in E.
  repeat split; simpl.
  - apply NoDup_app. split; [exact Hnd|]. split; [|apply NoDup_singleton].
    intros x Hx ->%list_elem_of_singleton. apply D, Hseen, Hx.
  - apply Forall_app. split; [exact Hnorm|]. constructor; [|constructor].
    split; [exact E | apply trim_idem].
  - intros [->%elem_of_singleton | H%Hseen]%elem_of_union;
      apply elem_of_app; [right; apply list_elem_of_singleton; reflexivity | left; exact H].
  - intros [H | ->%list_elem_of_singleton]%elem_of_app; apply elem_of_union;
      [right; apply Hseen, H | left; apply elem_of_singleton; reflexivity].
Qed.

Lemma fold_keepUnique_inv (parsed : list Val) (acc : list (list N) * gset (list N)) :
  uniqueInv acc -> uniqueInv (fold_left keepUnique parsed acc).
Proof.
  revert acc; induction parsed as [|item r IH]; intros acc H; simpl; [exact H|].
  apply IH, keepUnique_inv, H.
Qed.

Lemma readWatchlist_inv (st : Storage) :
  NoDup (readWatchlist st) /\ Forall normalizedSlug (readWatchlist st).
Proof.
  unfold readWatchlist.
  destruct (getItem WATCHLIST_STORAGE_KEY st) as [[raw|]|];
    try (split; [apply NoDup_nil_2 | constructor]).
  destruct (strEq raw []); [split; [apply NoDup_nil_2 | constructor]|].
  destruct (JSON_parse raw) as [[| | | | |parsed|]|];
    try (split; [apply NoDup_nil_2 | constructor]).
  assert (uniqueInv (([] : list (list N)), (∅ : gset (list N)))) as H0.
  { repeat split; simpl; [apply NoDup_nil_2 | constructor | set_solver | set_solver]. }
  destruct (fold_keepUnique_inv parsed _ H0) as (H1 & H2 & _). auto.
Qed.

Lemma fold_keepUnique_strings (l : list (list N)) :
  forall acc, uniqueInv acc -> NoDup (acc.1 ++ l) -> Forall normalizedSlug l ->
              (fold_left keepUnique (map JStr l) acc).1 = acc.1 ++ l.
Proof.
  induction l as [|x r IH]; intros acc Hinv Hnd Hnorm; simpl.
  - rewrite app_nil_r. reflexivity.
  - inversion Hnorm as [|? ? [Hne Htrim] Hr]; subst.
    assert (keepUnique acc (JStr x) = (acc.1 ++ [x], {[x]} ∪ acc.2)) as Hstep.
    { unfold keepUnique, JsOr. cbn [ToBoolean]. apply strEq_false in Hne as Hne'.
      rewrite Hne'. cbn [negb ToString]. rewrite Htrim, Hne'. cbn [orb].
      rewrite bool_decide_eq_false_2; [reflexivity|].
      destruct Hinv as (_ & _ & Hseen). rewrite Hseen. intros Hx.
      apply NoDup_app in Hnd as (_ & Hnd & _). apply (Hnd x Hx). constructor. }
    pose proof (keepUnique_inv acc (JStr x) Hinv) as Hinv'. rewrite Hstep in *.
    rewrite IH; simpl; auto.
    + rewrite <- app_assoc. reflexivity.
    + rewrite <- app_assoc. exact Hnd.
Qed.

Lemma read_after_write (l : list (list N)) (st : Storage) :
  available st = true -> NoDup l -> Forall normalizedSlug l ->
  readWatchlist (writeWatchlist l st) = l
  /\ available (writeWatchlist l st) = true.
Proof.
  intros Hav Hnd Hnorm. unfold writeWatchlist, setItem. rewrite Hav.
  split; [|reflexivity].
  unfold readWatchlist, getItem. cbn [available items]. rewrite lookup_insert_eq.
  pose proof (JSON_stringify_array (map JStr l)) as Hne. apply strEq_false in Hne.
  rewrite Hne, JSON_roundtrip.
  apply (fold_keepUnique_strings l ([], ∅)); auto.
  repeat split; simpl; [apply NoDup_nil_2 | constructor | set_solver | set_solver].
Qed.

Lemma write_unavailable (l : list (list N)) (st : Storage) :
  available st = false -> writeWatchlist l st = st.
Proof. intros H. unfold writeWatchlist, setItem. rewrite H. reflexivity. Qed.

Lemma indexOf_None (l : list (list N)) (s : list N) :
  indexOf l s = None <-> ~ In s l.
Proof.
  induction l as [|x r IH]; simpl; [tauto|].
  assert ((if strEq x s then Some O else S <$> indexOf r s) = None
          <-> x <> s /\ indexOf r s = None) as ->.
  { destruct (strEq x s) eqn:E.
    - apply strEq_spec in E. split; [discriminate | tauto].
    - apply strEq_false in E. destruct (indexOf r s); simpl; split; try tauto.
      + discriminate.
      + intros [_ [=]]. }
  rewrite IH. tauto.
Qed.

Lemma indexOf_Some (l : list (list N)) (s : list N) (i : nat) :
  indexOf l s = Some i -> l !! i = Some s.
Proof.
  revert i; induction l as [|x r IH]; intros i; simpl; [discriminate|].
  destruct (strEq x s) eqn:E.
  - apply strEq_spec in E. intros [= <-]. simpl. congruence.
  - destruct (indexOf r s); simpl; [|discriminate]. intros [= <-]. simpl. auto.
Qed.

Lemma delete_NoDup (l : list (list N)) (s : list N) (i : nat) :
  NoDup l -> l !! i = Some s ->
  ~ In s (delete i l) /\ NoDup (delete i l)
  /\ (forall P, Forall P l -> Forall P (delete i l)).
Proof.
  revert i; induction l as [|x r IH]; intros i Hnd Hi; [discriminate|].
  apply NoDup_cons in Hnd as [Hx Hr].
  destruct i as [|i]; simpl in *.
  - injection Hi as <-. repeat split; auto.
    + rewrite <- list_elem_of_In. exact Hx.
    + intros P HP. inversion HP; assumption.
  - destruct (IH i Hr Hi) as (H1 & H2 & H3). repeat split.
    + intros [-> | H]; [|contradiction]. apply Hx. eapply list_elem_of_lookup_2; exact Hi.
    + apply NoDup_cons. split; [|exact H2].
      intros H. apply Hx. eapply elem_of_submseteq; [exact H|].
      apply sublist_submseteq, sublist_delete.
    + intros P HP. inversion HP; subst. constructor; auto.
Qed.

Lemma indexOf_snoc (l : list (list N)) (s : list N) :
  ~ In s l -> indexOf (l ++ [s]) s = Some (length l).
Proof.
  induction l as [|x r IH]; simpl; intros H.
  - rewrite strEq_refl. reflexivity.
  - destruct (strEq x s) eqn:E; [apply strEq_spec in E; tauto|].
    rewrite IH by tauto. reflexivity.
Qed.

Lemma delete_snoc (l : list (list N)) (s : list N) :
  delete (length l) (l ++ [s]) = l.
Proof.
  induction l as [|x r IH]; simpl; [reflexivity|]. rewrite IH. reflexivity.
Qed.

Lemma toggleWatchlist_unavailable (slug : Val) (st : Storage) :
  available st = false -> (toggleWatchlist slug st).2 = st.
Proof.
  intros H. unfold toggleWatchlist.
  destruct (strEq _ []); [reflexivity|].
  destruct (indexOf _ _); cbn [snd]; apply write_unavailable; exact H.
Qed.


End Properties.

(** * Sorting a list whose elements the comparator orders *)

Section StableSortOn.
Context {A : Type} (cmp : A -> A -> option Z) (P : A -> Prop).

Hypothesis cmp_asym_on :
  forall x y, P x -> P y -> comesAfter (cmp y x) = true -> precedes cmp x y.
Hypothesis precedes_trans_on :
  forall x y z, P x -> P y -> P z ->
                precedes cmp x y -> precedes cmp y z -> precedes cmp x z.

Lemma insertBy_sorted_on (x : A) (l : list A) :
  P x -> Forall P l ->
  StronglySorted (precedes cmp) l -> StronglySorted (precedes cmp) (insertBy cmp x l).
Proof.
  intros Hx Hl Hs. induction Hs as [|y r Hr IH Hy]; simpl.
  - constructor; constructor.
  - apply Forall_cons in Hl as [HPy HPr].
    destruct (comesAfter (cmp y x)) eqn:E.
    + constructor; [constructor; assumption|].
      constructor; [apply cmp_asym_on; assumption|].
      rewrite Forall_forall in *. intros z Hz.
      apply (precedes_trans_on x y z); auto.
    + constructor; [apply IH; exact HPr|]. apply insertBy_Forall; [exact E | exact Hy].
Qed.

Lemma Array_sort_sorted_on (l : list A) :
  Forall P l -> StronglySorted (precedes cmp) (Array_sort cmp l).
Proof.
  unfold Array_sort.
  assert (forall acc, Forall P acc -> Forall P l -> StronglySorted (precedes cmp) acc ->
            StronglySorted (precedes cmp) (fold_left (fun acc x => insertBy cmp x acc) l acc)) as H.
  { induction l as [|x r IH]; intros acc Hacc Hl Hs; simpl; [exact Hs|].
    apply Forall_cons in Hl as [Hx Hr].
    apply IH; [apply insertBy_Forall; assumption | exact Hr |].
    apply insertBy_sorted_on; assumption. }
  intros Hl. apply H; [constructor | exact Hl | constructor].
Qed.

End StableSortOn.

(** * Further properties of the program *)

Section Coverage.
Context `{host : JsHost} {laws : JsHostLaws host}.

Ltac zdivide := Z.div_mod_to_equations; lia.

(** ** HTML text *)

Lemma flat_map_flat_map {A B C} (f : B -> list C) (g : A -> list B) (l : list A) :
  flat_map f (flat_map g l) = flat_map (fun x => flat_map f (g x)) l.
Proof.
  induction l as [|x r IH]; simpl; [reflexivity|].
  rewrite flat_map_app, IH. reflexivity.
Qed.

Lemma escapeHtml_units (v : Val) :
  escapeHtml v = flat_map escapeUnitHtml (ToString (orEmpty v)).
Proof.
  unfold escapeHtml, replaceUnit. fold (orEmpty v).
  rewrite !flat_map_flat_map. apply flat_map_ext. intros c.
  unfold escapeUnitHtml.
  destruct (N.eqb_spec c AMP) as [->|H1]; [reflexivity|].
  destruct (N.eqb_spec c LT) as [->|H2]; [reflexivity|].
  destruct (N.eqb_spec c GT) as [->|H3]; [reflexivity|].
  destruct (N.eqb_spec c DQUOTE) as [->|H4]; [reflexivity|].
  destruct (N.eqb_spec c APOS) as [->|H5]; [reflexivity|].
  repeat (cbn [flat_map app];
          match goal with
          | |- context [(c =? ?k)%N] => destruct (N.eqb_spec c k); [contradiction|]
          end).
  reflexivity.
Qed.

Lemma decodeHtml_unit (c : N) (rest : list N) :
  decodeHtml 0 (escapeUnitHtml c ++ rest) = c :: decodeHtml 0 rest.
Proof.
  unfold escapeUnitHtml.
  destruct (N.eqb_spec c AMP) as [->|H1]; [reflexivity|].
  destruct (N.eqb_spec c LT) as [->|H2]; [reflexivity|].
  destruct (N.eqb_spec c GT) as [->|H3]; [reflexivity|].
  destruct (N.eqb_spec c DQUOTE) as [->|H4]; [reflexivity|].
  destruct (N.eqb_spec c APOS) as [->|H5]; [reflexivity|].
  cbn [app decodeHtml]. destruct (N.eqb_spec c AMP); [contradiction | reflexivity].
Qed.

Lemma decodeHtml_escape (s : list N) : decodeHtml 0 (flat_map escapeUnitHtml s) = s.
Proof.
  induction s as [|c r IH]; [reflexivity|].
  cbn [flat_map]. rewrite decodeHtml_unit, IH. reflexivity.
Qed.

(** X1. The text [escapeHtml] returns contains none of the characters
    less-than, greater-than, double quote and apostrophe, whatever the
    value; a string without these four and without ampersand is returned
    unchanged. *)
Theorem escapeHtml_safe :
  (forall v : Val,
     Forall (fun c => c <> LT /\ c <> GT /\ c <> DQUOTE /\ c <> APOS) (escapeHtml v))
  /\ (forall s : list N,
        forallb (fun c => negb (isHtmlSpecial c)) s = true -> escapeHtml (JStr s) = s).
Proof.
  split.
  - intros v. rewrite escapeHtml_units. generalize (ToString (orEmpty v)). intros s.
    induction s as [|c r IH]; [constructor|].
    cbn [flat_map]. apply Forall_app. split; [|exact IH].
    unfold escapeUnitHtml.
    destruct (N.eqb_spec c AMP); [repeat constructor; discriminate|].
    destruct (N.eqb_spec c LT); [repeat constructor; discriminate|].
    destruct (N.eqb_spec c GT); [repeat constructor; discriminate|].
    destruct (N.eqb_spec c DQUOTE); [repeat constructor; discriminate|].
    destruct (N.eqb_spec c APOS); [repeat constructor; discriminate|].
    constructor; [auto | constructor].
  - intros s Hs. rewrite escapeHtml_units. cbn [orEmpty ToString].
    induction s as [|c r IH]; [reflexivity|].
    cbn [forallb] in Hs. apply andb_true_iff in Hs as [Hc Hr].
    cbn [flat_map]. rewrite (IH Hr).
    unfold isHtmlSpecial in Hc. rewrite !negb_orb, !andb_true_iff, !negb_true_iff in Hc.
    destruct Hc as [[[[H1 H2] H3] H4] H5]. unfold escapeUnitHtml.
    rewrite H1, H2, H3, H4, H5. reflexivity.
Qed.

(** X2. [escapeHtml] loses nothing: the escaped text decodes back to the
    text of the value, so two strings with the same escaped text are the
    same string. *)
Theorem escapeHtml_injective :
  (forall v : Val, decodeHtml 0 (escapeHtml v) = ToString (orEmpty v))
  /\ (forall a b : list N, escapeHtml (JStr a) = escapeHtml (JStr b) -> a = b).
Proof.
  assert (forall v : Val, decodeHtml 0 (escapeHtml v) = ToString (orEmpty v)) as H.
  { intros v. rewrite escapeHtml_units. apply decodeHtml_escape. }
  split; [exact H|].
  intros a b Hab. pose proof (H (JStr a)) as Ha. pose proof (H (JStr b)) as Hb.
  rewrite Hab, Hb in Ha. exact (eq_sym Ha).
Qed.

(** ** Paths *)

Lemma split_cons (sep : N) (s : list N) : exists h t, split sep s = h :: t.
Proof.
  induction s as [|c r (h & t & IH)]; simpl; [eauto|].
  destruct (c =? sep)%N; [eauto|]. rewrite IH. eauto.
Qed.

Lemma split_no_sep (sep : N) (s : list N) :
  Forall (fun part => ~ In sep part) (split sep s).
Proof.
  induction s as [|c r IH]; simpl.
  - constructor; [intros [] | constructor].
  - destruct (N.eqb_spec c sep) as [->|Hc].
    + constructor; [intros [] | exact IH].
    + destruct (split sep r) as [|h t]; [constructor; [|constructor]|].
      * intros [H | []]. congruence.
      * inversion IH; subst. constructor; [|assumption].
        intros [H | H]; [congruence | contradiction].
Qed.

Lemma split_whole (sep : N) (a : list N) : ~ In sep a -> split sep a = [a].
Proof.
  induction a as [|c r IH]; simpl; intros H; [reflexivity|].
  destruct (N.eqb_spec c sep) as [->|Hc]; [tauto|].
  rewrite IH by tauto. reflexivity.
Qed.

Lemma split_app_sep (sep : N) (a rest : list N) :
  ~ In sep a -> split sep (a ++ sep :: rest) = a :: split sep rest.
Proof.
  induction a as [|c r IH]; simpl; intros H.
  - rewrite N.eqb_refl. reflexivity.
  - destruct (N.eqb_spec c sep) as [->|Hc]; [tauto|].
    rewrite IH by tauto. reflexivity.
Qed.

Lemma nonEmpty_true (s : list N) : nonEmpty s = true <-> s <> [].
Proof. unfold nonEmpty. rewrite negb_true_iff. apply strEq_false. Qed.

Lemma isHttpUrl_slash (s : list N) : isHttpUrl (SLASH :: s) = false.
Proof. reflexivity. Qed.

Lemma withBase_relative (base s : list N) :
  isHttpUrl s = false ->
  withBase base (JStr s) = JStr (base ++ SLASH :: dropWhile isSlash s).
Proof.
  intros H. unfold withBase. cbn [ToString]. rewrite H.
  destruct (nonEmpty (dropWhile isSlash s)) eqn:E; [reflexivity|].
  apply negb_false_iff, strEq_spec in E. rewrite E. reflexivity.
Qed.

(** X3. [withBase] returns an absolute http(s) URL (any letter case of the
    scheme) as it is.  Every other path is put behind the base path and one
    slash, after its own leading slashes are dropped, so that what follows
    that slash never starts with a slash and leading slashes of the path
    make no difference.  With an empty base path, applying [withBase] twice
    is applying it once. *)
Theorem withBase_paths (base s : list N) :
  (isHttpUrl s = true -> withBase base (JStr s) = JStr s)
  /\ (isHttpUrl s = false ->
      exists slashes clean,
        s = slashes ++ clean /\ Forall (fun c => c = SLASH) slashes
        /\ head clean <> Some SLASH
        /\ withBase base (JStr s) = JStr (base ++ SLASH :: clean)
        /\ withBase base (JStr (SLASH :: s)) = withBase base (JStr s))
  /\ withBase [] (withBase [] (JStr s)) = withBase [] (JStr s).
Proof.
  assert (forall x, dropWhile isSlash (dropWhile isSlash x) = dropWhile isSlash x) as Hidem.
  { intros x. apply dropWhile_fixed. intros c Hc. eapply dropWhile_head. exact Hc. }
  split; [|split].
  - intros H. unfold withBase. cbn [ToString]. rewrite H. reflexivity.
  - intros H. destruct (dropWhile_suffix isSlash s) as (slashes & Hs & Hall).
    exists slashes, (dropWhile isSlash s). split; [exact Hs|]. split.
    { eapply Forall_impl; [exact Hall|]. intros c Hc. apply N.eqb_eq. exact Hc. }
    split.
    { intros Hh. apply dropWhile_head in Hh. discriminate. }
    rewrite (withBase_relative base s H).
    rewrite (withBase_relative base (SLASH :: s) (isHttpUrl_slash s)). auto.
  - destruct (isHttpUrl s) eqn:H.
    + unfold withBase. cbn [ToString]. rewrite H. cbn [ToString]. rewrite H. reflexivity.
    + rewrite (withBase_relative [] s H). cbn [app].
      rewrite (withBase_relative [] _ (isHttpUrl_slash _)). cbn [app dropWhile].
      change (isSlash SLASH) with true. cbv iota. rewrite Hidem. reflexivity.
Qed.

(** X4. The base path is empty unless the host name ends with
    "github.io"; then it is a slash followed by the first non-empty segment
    of the path name (empty when there is none).  A base path is never more
    than one segment, so every path [withBase] builds from it starts with a
    slash. *)
Theorem computeBasePath_segment (hostname pathname : list N) :
  let basePath := computeBasePath hostname pathname in
  (endsWith hostname (str "github.io") = false -> basePath = [])
  /\ (basePath = []
      \/ exists seg, basePath = SLASH :: seg /\ seg <> [] /\ ~ In SLASH seg)
  /\ (forall seg tail,
        endsWith hostname (str "github.io") = true ->
        seg <> [] -> ~ In SLASH seg ->
        pathname = SLASH :: seg ++ tail -> tail = [] \/ head tail = Some SLASH ->
        basePath = SLASH :: seg)
  /\ (forall s, isHttpUrl s = false ->
        exists r, withBase basePath (JStr s) = JStr (SLASH :: r)).
Proof.
  intros basePath.
  assert (basePath = []
          \/ exists seg, basePath = SLASH :: seg /\ seg <> [] /\ ~ In SLASH seg) as Hshape.
  { unfold basePath, computeBasePath.
    destruct (endsWith hostname (str "github.io")); [|auto].
    destruct (filter nonEmpty (split SLASH pathname)) as [|first rest] eqn:E; [auto|].
    right. exists first.
    assert (first ∈ filter nonEmpty (split SLASH pathname)) as Hin by (rewrite E; constructor).
    apply list_elem_of_filter in Hin as [Hne Hin].
    split; [reflexivity|]. split.
    - apply nonEmpty_true. destruct (nonEmpty first); [reflexivity | contradiction].
    - pose proof (split_no_sep SLASH pathname) as Hall. rewrite Forall_forall in Hall.
      apply Hall. exact Hin. }
  split; [|split; [exact Hshape|split]].
  - intros H. unfold basePath, computeBasePath. rewrite H. reflexivity.
  - intros seg tail Hhost Hne Hseg -> Htail.
    unfold basePath, computeBasePath. rewrite Hhost.
    assert (exists rest, split SLASH (seg ++ tail) = seg :: rest) as [rest Hsplit].
    { destruct Htail as [-> | Htail].
      - rewrite app_nil_r, (split_whole _ _ Hseg). eauto.
      - destruct tail as [|c tail]; [discriminate|]. injection Htail as ->.
        rewrite (split_app_sep _ _ _ Hseg). eauto. }
    cbn [split]. change (SLASH =? SLASH)%N with true. cbv iota. rewrite Hsplit.
    rewrite filter_cons_False by (intros H; exact H).
    rewrite filter_cons_True; [reflexivity|].
    apply nonEmpty_true in Hne. rewrite Hne. exact I.
  - intros s Hs. rewrite (withBase_relative _ _ Hs).
    destruct Hshape as [-> | (seg & -> & _)]; cbn [app]; eauto.
Qed.

(** ** Dates *)


Lemma setHours_value (t h mi sec ms : Z) :
  Z.abs t <= maxTime - 2 * msPerDay -> 0 <= MakeTime h mi sec ms < msPerDay ->
  setHours (Some t) h mi sec ms
  = Some (Day (LocalTime t) * msPerDay + MakeTime h mi sec ms - LocalTZA).
Proof.
  intros Ht Hm. unfold setHours, UTC, MakeDate. apply TimeClip_in_range.
  pose proof LocalTZA_bound as Hz. unfold Day, LocalTime, maxTime in *.
  rewrite msPerDay_val in *. zdivide.
Qed.

Lemma Day_LocalTime_setHours (t h mi sec ms : Z) :
  0 <= MakeTime h mi sec ms < msPerDay ->
  Day (LocalTime (Day (LocalTime t) * msPerDay + MakeTime h mi sec ms - LocalTZA))
  = Day (LocalTime t).
Proof.
  intros Hm. unfold LocalTime at 1.
  replace (Day (LocalTime t) * msPerDay + MakeTime h mi sec ms - LocalTZA + LocalTZA)
    with (MakeDate (Day (LocalTime t)) (MakeTime h mi sec ms)) by (unfold MakeDate; lia).
  apply Day_MakeDate. exact Hm.
Qed.


(** X7. [isSameLocalDay] is symmetric and transitive, holds of a date and
    itself exactly when the date is valid, and never holds when one of the
    dates is invalid; two dates (away from the ends of the time range) fall
    on the same local day exactly when [atDayStart] sends them to the same
    instant. *)
Theorem isSameLocalDay_equivalence :
  (forall a b : Date, isSameLocalDay a b = isSameLocalDay b a)
  /\ (forall a b c : Date,
        isSameLocalDay a b = true -> isSameLocalDay b c = true -> isSameLocalDay a c = true)
  /\ (forall a : Date, isSameLocalDay a a = true <-> is_Some a)
  /\ (forall a : Date, isSameLocalDay a None = false /\ isSameLocalDay None a = false)
  /\ (forall ta tb : Z,
        Z.abs ta <= maxTime - 2 * msPerDay -> Z.abs tb <= maxTime - 2 * msPerDay ->
        (isSameLocalDay (Some ta) (Some tb) = true
         <-> atDayStart (Some ta) = atDayStart (Some tb))).
Proof.
  assert (forall a b : Date, isSameLocalDay a b = true -> isSameLocalDay b a = true) as Hsym.
  { intros a b. rewrite !isSameLocalDay_Day. intros (ta & tb & -> & -> & H). eauto. }
  split; [|split; [|split; [|split]]].
  - intros a b. destruct (isSameLocalDay a b) eqn:E1, (isSameLocalDay b a) eqn:E2; auto.
    + apply Hsym in E1. congruence.
    + apply Hsym in E2. congruence.
  - intros a b c. rewrite !isSameLocalDay_Day.
    intros (ta & tb & -> & -> & H1) (tb' & tc & [= <-] & -> & H2).
    exists ta, tc. repeat split; congruence.
  - intros a. rewrite isSameLocalDay_Day. split.
    + intros (ta & _ & -> & _). eauto.
    + intros [ta ->]. eauto.
  - intros a. split.
    + destruct (isSameLocalDay a None) eqn:E; [|reflexivity].
      apply isSameLocalDay_Day in E as (? & ? & _ & [=] & _).
    + destruct (isSameLocalDay None a) eqn:E; [|reflexivity].
      apply isSameLocalDay_Day in E as (? & ? & [=] & _).
  - intros ta tb Ha Hb.
    assert (0 <= MakeTime 0 0 0 0 < msPerDay) as H0 by (vm_compute; split; congruence).
    unfold atDayStart. rewrite !setHours_value by assumption.
    rewrite isSameLocalDay_Day. split.
    + intros (? & ? & [= <-] & [= <-] & H). rewrite H. reflexivity.
    + intros [= H]. exists ta, tb. repeat split; auto.
      rewrite msPerDay_val in H. lia.
Qed.


(** ** The classifier over time *)

Ltac case_flags :=
  repeat match goal with
         | |- context [if ?b then _ else _] => destruct b eqn:?
         | H : context [if ?b then _ else _] |- _ => destruct b eqn:?
         end.

Ltac case_ltb :=
  repeat match goal with
         | H : context [?a <? ?b] |- _ => destruct (Z.ltb_spec a b)
         | |- context [?a <? ?b] => destruct (Z.ltb_spec a b)
         end.

(** X9. A project's status only moves forward in time: preview is
    preview at every instant; a project that is upcoming at an instant was
    upcoming at every earlier one; once archived, late-pledge or pre-order
    it keeps that status at every later instant; and from live or promo it
    can only stay as it is or become archived, late-pledge or pre-order.
    This holds for every project, also with malformed dates. *)
Theorem projectStatus_progress (p : Project) (t1 t2 : Z) :
  t1 <= t2 ->
  let s1 := projectStatus p (Some t1) in
  let s2 := projectStatus p (Some t2) in
  (s1 = str "preview" <-> s2 = str "preview")
  /\ (s2 = str "upcoming" -> s1 = str "upcoming")
  /\ (closedWindow s1 -> s2 = s1)
  /\ (liveWindow s1 -> s2 = s1 \/ closedWindow s2).
Proof.
  intros Ht s1 s2. subst s1 s2. rewrite !projectStatus_classify. unfold classify.
  unfold closedWindow, liveWindow.
  destruct (ToBoolean (isPreview p) || negb (hasIsoDate (launchDate p) || hasIsoDate (endDate p))).
  { repeat split; auto; intros H; decompose [or] H; discriminate. }
  destruct (atDayStart (parseDate (launchDate p))) as [l|],
           (atDayEnd (parseDate (endDate p))) as [e|]; cbn [num_gt num_lt];
    destruct (latePledgePresent p), (preOrderPresent p), (ToBoolean (isPromo p));
    case_ltb; try lia;
    repeat split; intros;
    repeat match goal with Hor : _ \/ _ |- _ => destruct Hor end;
    try discriminate; auto 6.
Qed.

Lemma parseDate_undefined : parseDate (JUndefined : Val) = None.
Proof. reflexivity. Qed.

Lemma atDayEnd_null :
  exists e, atDayEnd (parseDate (JNull : Val)) = Some e /\ e < msPerDay - LocalTZA.
Proof.
  assert (0 <= MakeTime 23 59 59 999 < msPerDay) as H1 by (vm_compute; split; congruence).
  cbn [parseDate Date_of_value]. unfold atDayEnd.
  rewrite setHours_value by (assumption || (vm_compute; discriminate)).
  eexists; split; [reflexivity|].
  pose proof LocalTZA_bound as Hz. unfold Day, LocalTime.
  change (MakeTime 23 59 59 999) with 86399999. rewrite msPerDay_val in *. zdivide.
Qed.

(** X10. Missing dates.  A project whose [launchDate] is missing is never
    upcoming, and one whose [endDate] is missing is never archived,
    late-pledge or pre-order: with an ISO launch date and no preview flag it
    stays live or promo from the start of the launch day on.  An [endDate]
    that is [null] is read as 1 January 1970: a project launched after that
    day is never live or promo. *)
Theorem projectStatus_missing_date (p : Project) :
  (forall now : Date, launchDate p = JUndefined -> projectStatus p now <> str "upcoming")
  /\ (forall now : Date, endDate p = JUndefined -> ~ closedWindow (projectStatus p now))
  /\ (forall L t,
        isoDayOf (launchDate p) = Some L -> endDate p = JUndefined ->
        ToBoolean (isPreview p) = false -> localInstant L 0 0 0 0 <= t ->
        liveWindow (projectStatus p (Some t)))
  /\ (forall L t,
        isoDayOf (launchDate p) = Some L -> endDate p = JNull ->
        ToBoolean (isPreview p) = false -> 1 <= L ->
        ~ liveWindow (projectStatus p (Some t))).
Proof.
  unfold closedWindow, liveWindow. split; [|split; [|split]].
  - intros now H. rewrite projectStatus_classify. unfold classify. rewrite H.
    cbn [parseDate Date_of_value atDayStart setHours num_gt].
    case_flags; discriminate.
  - intros now H. rewrite projectStatus_classify. unfold classify. rewrite H.
    cbn [parseDate Date_of_value atDayEnd setHours num_lt].
    case_flags; intros Hc; decompose [or] Hc; discriminate.
  - intros L t HL HE Hp Ht. rewrite projectStatus_classify. unfold classify.
    rewrite Hp, (hasIsoDate_isoDayOf_Some _ _ HL), (atDayStart_iso _ _ HL), HE.
    cbn [orb negb parseDate Date_of_value atDayEnd setHours num_lt num_gt].
    destruct (Z.ltb_spec t (localInstant L 0 0 0 0)); [lia|].
    destruct (ToBoolean (isPromo p)); auto.
  - intros L t HL HE Hp HL1. rewrite projectStatus_classify. unfold classify.
    rewrite Hp, (hasIsoDate_isoDayOf_Some _ _ HL), (atDayStart_iso _ _ HL), HE.
    destruct atDayEnd_null as (e & -> & He).
    cbn [orb negb num_lt num_gt]. rewrite localInstant_val. change (MakeTime 0 0 0 0) with 0.
    rewrite msPerDay_val in He.
    case_ltb; try lia; case_flags; intros Hc; decompose [or] Hc; discriminate.
Qed.


(** ** The countdown of a classified project *)

Lemma classify_upcoming (p : Project) (L t : Z) :
  isoDayOf (launchDate p) = Some L ->
  projectStatus p (Some t) = str "upcoming" -> t < localInstant L 0 0 0 0.
Proof.
  intros HL. rewrite projectStatus_classify. unfold classify.
  rewrite (atDayStart_iso _ _ HL). cbn [num_gt].
  destruct (Z.ltb_spec t (localInstant L 0 0 0 0)); [auto|].
  case_flags; discriminate.
Qed.

Lemma classify_live (p : Project) (E t : Z) :
  isoDayOf (endDate p) = Some E ->
  liveWindow (projectStatus p (Some t)) -> t <= localInstant E 23 59 59 999.
Proof.
  intros HE. rewrite projectStatus_classify. unfold classify, liveWindow.
  rewrite (atDayEnd_iso _ _ HE). cbn [num_lt].
  destruct (Z.ltb_spec (localInstant E 23 59 59 999) t); [|lia].
  case_flags; intros [Hs | Hs]; discriminate.
Qed.

Lemma classify_closed (p : Project) (E t : Z) :
  isoDayOf (endDate p) = Some E ->
  closedWindow (projectStatus p (Some t)) -> localInstant E 23 59 59 999 < t.
Proof.
  intros HE. rewrite projectStatus_classify. unfold classify, closedWindow.
  rewrite (atDayEnd_iso _ _ HE). cbn [num_lt].
  destruct (Z.ltb_spec (localInstant E 23 59 59 999) t); [auto|].
  case_flags; intros [Hs | [Hs | Hs]]; discriminate.
Qed.




(** ** More comparators *)

Lemma launchTime_valid (p : Project) : validLaunch p -> exists t, launchTime p = Some t.
Proof.
  intros [day Hday]%hasIsoDate_isoDayOf. unfold launchTime, getTime.
  rewrite (parseDate_iso _ _ Hday). eauto.
Qed.

Lemma byLaunchDesc_precedes (a b : Project) :
  precedes byLaunchDesc a b <-> ~ validLaunch b \/ (validLaunch a /\ launchesNoEarlier a b).
Proof.
  unfold precedes, byLaunchDesc, validLaunch, launchesNoEarlier.
  destruct (hasIsoDate (launchDate a)) eqn:Ha, (hasIsoDate (launchDate b)) eqn:Hb; simpl.
  - destruct (launchTime_valid a Ha) as [ta Hta], (launchTime_valid b Hb) as [tb Htb].
    unfold launchTime in *. rewrite Hta, Htb. simpl. rewrite Z.ltb_ge. split.
    + intros H. right. split; [reflexivity|]. exists ta, tb. repeat split; lia.
    + intros [H | [_ (ta' & tb' & [= <-] & [= <-] & H)]]; [congruence | lia].
  - split; auto; intros _; left; discriminate.
  - split; [discriminate|]. intros [H | [[=] _]]. congruence.
  - split; auto; intros _; left; discriminate.
Qed.

Lemma byLaunchDesc_asym (x y : Project) :
  comesAfter (byLaunchDesc y x) = true -> precedes byLaunchDesc x y.
Proof.
  intros H. apply byLaunchDesc_precedes. revert H.
  unfold byLaunchDesc, validLaunch, launchesNoEarlier.
  destruct (hasIsoDate (launchDate x)) eqn:Hx, (hasIsoDate (launchDate y)) eqn:Hy; simpl;
    try discriminate.
  - destruct (launchTime_valid x Hx) as [tx Htx], (launchTime_valid y Hy) as [ty Hty].
    unfold launchTime in *. rewrite Htx, Hty. simpl. rewrite Z.ltb_lt. intros H.
    right. split; [reflexivity|]. exists tx, ty. repeat split; lia.
  - intros _. left. discriminate.
Qed.

Lemma byLaunchDesc_trans (x y z : Project) :
  precedes byLaunchDesc x y -> precedes byLaunchDesc y z -> precedes byLaunchDesc x z.
Proof.
  rewrite !byLaunchDesc_precedes.
  intros [Hy | [Hx (tx & ty & Htx & Hty & Hxy)]] [Hz | [Hy' (ty' & tz & Hty' & Htz & Hyz)]];
    auto; try contradiction.
  right. split; [exact Hx|]. exists tx, tz. repeat split; auto.
  rewrite Hty in Hty'. injection Hty' as <-. lia.
Qed.

(** X15. [byLaunchDesc] mirrors [byEndAsc] on the launch date: a record
    without an ISO launch date compares after one with it, two records
    without compare equal, and sorting a list with it gives a permutation
    with the ISO-dated records first, the latest launch first, and the
    others last. *)
Theorem byLaunchDesc_order :
  (forall a b : Project, ~ validLaunch a -> validLaunch b ->
     byLaunchDesc a b = Some 1 /\ byLaunchDesc b a = Some (-1))
  /\ (forall a b : Project, ~ validLaunch a -> ~ validLaunch b -> byLaunchDesc a b = Some 0)
  /\ (forall l : list Project,
        let sorted := Array_sort byLaunchDesc l in
        Permutation l sorted
        /\ exists vs ivs,
             sorted = vs ++ ivs /\ Forall validLaunch vs
             /\ Forall (fun p => ~ validLaunch p) ivs
             /\ StronglySorted launchesNoEarlier vs).
Proof.
  split; [|split].
  - unfold validLaunch. intros a b Ha Hb. unfold byLaunchDesc.
    destruct (hasIsoDate (launchDate a)); [contradiction|]. rewrite Hb. auto.
  - unfold validLaunch. intros a b Ha Hb. unfold byLaunchDesc.
    destruct (hasIsoDate (launchDate a)); [contradiction|].
    destruct (hasIsoDate (launchDate b)); [contradiction|]. reflexivity.
  - intros l. cbv zeta. split; [apply Array_sort_perm|].
    pose proof (Array_sort_sorted byLaunchDesc byLaunchDesc_asym byLaunchDesc_trans l) as Hs.
    induction Hs as [|a r Hr IH Ha].
    + exists [], []. repeat split; constructor.
    + destruct IH as (vs & ivs & -> & Hvs & Hivs & Hsorted).
      destruct (hasIsoDate (launchDate a)) eqn:E.
      * exists (a :: vs), ivs. repeat split; auto.
        constructor; [exact Hsorted|].
        apply Forall_app in Ha. destruct Ha as [Ha _].
        rewrite Forall_forall in *. intros b Hb.
        destruct (proj1 (byLaunchDesc_precedes a b) (Ha b Hb)) as [Hn | [_ H]]; [|exact H].
        exfalso. apply Hn. apply Hvs. exact Hb.
      * exists [], (a :: vs ++ ivs). repeat split; try constructor.
        -- unfold validLaunch. congruence.
        -- rewrite Forall_forall in *. intros b Hb.
           destruct (proj1 (byLaunchDesc_precedes a b) (Ha b Hb)) as [Hn | [Hv _]]; [exact Hn|].
           unfold validLaunch in Hv. congruence.
Qed.

Lemma weekTime_valid (i : Issue) : validWeek i -> exists t, weekTime i = Some t.
Proof.
  intros [day Hday]%hasIsoDate_isoDayOf. unfold weekTime, getTime.
  rewrite (parseDate_iso _ _ Hday). eauto.
Qed.

Lemma byWeekDesc_precedes (a b : Issue) :
  validWeek a -> validWeek b -> (precedes byWeekDesc a b <-> weekNoEarlier a b).
Proof.
  intros Ha Hb. destruct (weekTime_valid a Ha) as [ta Hta], (weekTime_valid b Hb) as [tb Htb].
  unfold precedes, byWeekDesc, weekNoEarlier. unfold weekTime in *. rewrite Hta, Htb.
  simpl. rewrite Z.ltb_ge. split.
  - intros H. exists ta, tb. repeat split; lia.
  - intros (ta' & tb' & [= <-] & [= <-] & H). lia.
Qed.


Lemma archive_precedes (now : Z) (a b : Project) :
  validEnd a -> validEnd b ->
  (precedes (byArchivePriority now now) a b <-> archiveOrder now a b).
Proof.
  intros Ha Hb. destruct (endTime_valid a Ha) as [ta Hta], (endTime_valid b Hb) as [tb Htb].
  unfold precedes, byArchivePriority, archiveOrder, endsNoLater.
  unfold endTime in *. rewrite Hta, Htb.
  destruct (Z.eqb_spec (rank now a - rank now b) 0) as [E|E]; simpl.
  - rewrite Z.ltb_ge. split.
    + intros H. right. split; [lia|]. exists tb, ta. repeat split; lia.
    + intros [H | [_ (tb' & ta' & [= <-] & [= <-] & H)]]; lia.
  - rewrite Z.ltb_ge. split.
    + intros H. left. lia.
    + intros [H | [H _]]; lia.
Qed.

(** X17. At one clock reading and on projects with ISO end dates,
    [byArchivePriority] is a consistent comparator: sorting with it gives a
    permutation in which every project comes before all projects of higher
    rank (late-pledge, then pre-order, then the rest) and, within its rank,
    before all projects that ended earlier. *)
Theorem byArchivePriority_sorts (now : Z) (l : list Project) :
  Forall validEnd l ->
  let sorted := Array_sort (byArchivePriority now now) l in
  Permutation l sorted /\ StronglySorted (archiveOrder now) sorted.
Proof.
  intros Hl. cbv zeta. split; [apply Array_sort_perm|].
  assert (Forall validEnd (Array_sort (byArchivePriority now now) l)) as Hall.
  { eapply Permutation_Forall; [apply Array_sort_perm | exact Hl]. }
  assert (StronglySorted (precedes (byArchivePriority now now))
            (Array_sort (byArchivePriority now now) l)) as Hs.
  { apply (Array_sort_sorted_on (byArchivePriority now now) validEnd); [| |exact Hl].
    - intros x y Hx Hy H. apply archive_precedes; auto.
      destruct (endTime_valid x Hx) as [tx Htx], (endTime_valid y Hy) as [ty Hty].
      unfold byArchivePriority in H. unfold archiveOrder, endsNoLater.
      unfold endTime in *. rewrite Htx, Hty in H.
      destruct (Z.eqb_spec (rank now y - rank now x) 0) as [E|E]; simpl in H;
        apply Z.ltb_lt in H.
      + right. split; [lia|]. exists ty, tx. repeat split; auto. lia.
      + left. lia.
    - intros x y z Hx Hy Hz. rewrite !archive_precedes by assumption.
      unfold archiveOrder, endsNoLater.
      intros [H1 | [H1 (ty & tx & Hty & Htx & Hxy)]] [H2 | [H2 (tz & ty' & Htz & Hty' & Hyz)]];
        try (left; lia).
      right. split; [lia|]. exists tz, tx. repeat split; auto.
      rewrite Hty in Hty'. injection Hty' as <-. lia. }
  revert Hall. induction Hs as [|a r Hr IH Ha]; intros Hall; constructor.
  - apply IH. inversion Hall; assumption.
  - apply Forall_cons in Hall as [HPa HPr]. rewrite Forall_forall in *. intros b Hb.
    apply archive_precedes; auto.
Qed.

Lemma projectStatus_closed_stays (p : Project) (t1 t2 : Z) :
  t1 <= t2 -> closedWindow (projectStatus p (Some t1)) ->
  projectStatus p (Some t2) = projectStatus p (Some t1).
Proof.
  intros Ht. rewrite !projectStatus_classify. unfold classify, closedWindow.
  destruct (ToBoolean (isPreview p) || negb (hasIsoDate (launchDate p) || hasIsoDate (endDate p)));
    [reflexivity|].
  destruct (atDayStart (parseDate (launchDate p))) as [l|],
           (atDayEnd (parseDate (endDate p))) as [e|]; cbn [num_gt num_lt];
    destruct (latePledgePresent p), (preOrderPresent p), (ToBoolean (isPromo p));
    case_ltb; try lia; intros;
    repeat match goal with Hor : _ \/ _ |- _ => destruct Hor end;
    try discriminate; reflexivity.
Qed.

(** X18. Once a project is archived, late-pledge or pre-order, its rank
    no longer depends on the clock: for two such projects
    [byArchivePriority] gives the same result at every later pair of clock
    readings. *)
Theorem byArchivePriority_clock (now0 now_a now_b : Z) (a b : Project) :
  closedWindow (projectStatus a (Some now0)) ->
  closedWindow (projectStatus b (Some now0)) ->
  now0 <= now_a -> now0 <= now_b ->
  rank now_a a = rank now0 a /\ rank now_b b = rank now0 b
  /\ byArchivePriority now_a now_b a b = byArchivePriority now0 now0 a b.
Proof.
  intros Ha Hb Hna Hnb.
  assert (rank now_a a = rank now0 a) as Hra
    by (unfold rank; rewrite (projectStatus_closed_stays a now0 now_a Hna Ha); reflexivity).
  assert (rank now_b b = rank now0 b) as Hrb
    by (unfold rank; rewrite (projectStatus_closed_stays b now0 now_b Hnb Hb); reflexivity).
  split; [exact Hra|]. split; [exact Hrb|].
  unfold byArchivePriority. rewrite Hra, Hrb. reflexivity.
Qed.

(** ** More of the watchlist *)

Lemma toggleWatchlist_read (slug : Val) (st : Storage) :
  let n := trim (ToString (JsOr slug (JStr []))) in
  n <> [] -> available st = true ->
  readWatchlist (toggleWatchlist slug st).2
  = match indexOf (readWatchlist st) n with
    | Some idx => delete idx (readWatchlist st)
    | None => readWatchlist st ++ [n]
    end.
Proof.
  intros n Hn Hav. destruct (readWatchlist_inv st) as [Hnd Hnorm].
  apply strEq_false in Hn as Hn'. unfold toggleWatchlist. fold n. rewrite Hn'.
  destruct (indexOf (readWatchlist st) n) as [idx|] eqn:Hidx; cbn [snd].
  - destruct (delete_NoDup _ n idx Hnd (indexOf_Some _ _ _ Hidx)) as (_ & Hnd' & Hall).
    apply read_after_write; auto.
  - apply indexOf_None in Hidx. apply read_after_write; auto.
    + apply NoDup_app. split; [exact Hnd|]. split; [|apply NoDup_singleton].
      intros x Hx ->%list_elem_of_singleton. apply Hidx, list_elem_of_In, Hx.
    + apply Forall_app. split; [exact Hnorm|]. constructor; [|constructor].
      split; [exact Hn | apply trim_idem].
Qed.

Lemma isWatchlisted_In (s : list N) (st : Storage) :
  s <> [] -> (isWatchlisted (JStr s) st = true <-> In s (readWatchlist st)).
Proof.
  intros Hs. unfold isWatchlisted. cbn [ToBoolean ToString].
  apply strEq_false in Hs. rewrite Hs. cbn [negb]. apply includes_In.
Qed.

Lemma delete_other (l : list (list N)) (i : nat) (n m : list N) :
  l !! i = Some n -> m <> n -> (In m (delete i l) <-> In m l).
Proof.
  revert i; induction l as [|x r IH]; intros i Hi Hm; [discriminate|].
  destruct i as [|i]; simpl in *.
  - injection Hi as ->. split; [auto | intros [H | H]; [congruence | exact H]].
  - rewrite (IH i Hi Hm). tauto.
Qed.

(** X19. On an available storage, toggling a trimmed non-empty slug flips
    what [isWatchlisted] says of it.  [isWatchlisted] does not trim: a slug
    with white space around it is never reported as watchlisted, whatever
    the storage holds. *)
Theorem isWatchlisted_toggle :
  (forall (n : list N) (st : Storage),
     normalizedSlug n -> available st = true ->
     isWatchlisted (JStr n) (toggleWatchlist (JStr n) st).2
     = negb (isWatchlisted (JStr n) st))
  /\ (forall (s : list N) (st : Storage), trim s <> s -> isWatchlisted (JStr s) st = false).
Proof.
  split.
  - intros n st [Hne Htrim] Hav.
    assert (trim (ToString (JsOr (JStr n) (JStr []))) = n) as Hnorm.
    { unfold JsOr. cbn [ToBoolean]. apply strEq_false in Hne as ->. exact Htrim. }
    pose proof (toggleWatchlist_read (JStr n) st) as Hread. cbv zeta in Hread.
    rewrite Hnorm in Hread. specialize (Hread Hne Hav).
    destruct (readWatchlist_inv st) as [Hnd _].
    destruct (isWatchlisted (JStr n) st) eqn:E1; cbn [negb].
    + apply (isWatchlisted_In n st Hne) in E1.
      destruct (indexOf (readWatchlist st) n) as [idx|] eqn:Hidx;
        [|apply indexOf_None in Hidx; contradiction].
      destruct (delete_NoDup _ n idx Hnd (indexOf_Some _ _ _ Hidx)) as (Hgone & _ & _).
      destruct (isWatchlisted (JStr n) _) eqn:E2; [|reflexivity].
      apply (isWatchlisted_In n _ Hne) in E2. rewrite Hread in E2. contradiction.
    + assert (~ In n (readWatchlist st)) as Habs.
      { intros H. apply (isWatchlisted_In n st Hne) in H. congruence. }
      apply indexOf_None in Habs as Hidx. rewrite Hidx in Hread.
      apply (isWatchlisted_In n _ Hne). rewrite Hread. apply in_or_app. right. left. reflexivity.
  - intros s st Hs. destruct (isWatchlisted (JStr s) st) eqn:E; [|reflexivity].
    exfalso. unfold isWatchlisted in E. cbn [ToString] in E.
    destruct (negb (ToBoolean (JStr s))); [discriminate|].
    apply includes_In in E. destruct (readWatchlist_inv st) as [_ Hnorm].
    rewrite Forall_forall in Hnorm. apply list_elem_of_In, Hnorm in E as [_ E]. contradiction.
Qed.

(** X20. After [clearWatchlist] the list read back is empty and nothing
    is reported as watchlisted, whether the storage is available or not;
    toggling a non-empty slug then reports an addition. *)
Theorem clearWatchlist_empties (st : Storage) :
  readWatchlist (clearWatchlist st) = []
  /\ (forall slug : Val, isWatchlisted slug (clearWatchlist st) = false)
  /\ (forall slug : Val,
        trim (ToString (JsOr slug (JStr []))) <> [] ->
        (toggleWatchlist slug (clearWatchlist st)).1 = true).
Proof.
  assert (readWatchlist (clearWatchlist st) = []) as Hread.
  { unfold clearWatchlist. destruct (available st) eqn:Hav.
    - apply read_after_write; [exact Hav | apply NoDup_nil_2 | constructor].
    - rewrite write_unavailable by exact Hav. unfold readWatchlist, getItem. rewrite Hav.
      reflexivity. }
  split; [exact Hread|]. split.
  - intros slug. unfold isWatchlisted. rewrite Hread. destruct (negb (ToBoolean slug)); reflexivity.
  - intros slug Hn. unfold toggleWatchlist. apply strEq_false in Hn. rewrite Hn, Hread.
    reflexivity.
Qed.

(** X21. What [readWatchlist] returns is in normal form: writing it back
    and reading again gives the same list, on every storage; the entries
    are trimmed, non-empty and pairwise different. *)
Theorem readWatchlist_normal_form (st : Storage) :
  readWatchlist (writeWatchlist (readWatchlist st) st) = readWatchlist st
  /\ Forall normalizedSlug (readWatchlist st)
  /\ NoDup (readWatchlist st).
Proof.
  destruct (readWatchlist_inv st) as [Hnd Hnorm].
  split; [|split; assumption].
  destruct (available st) eqn:Hav.
  - apply read_after_write; assumption.
  - rewrite write_unavailable by exact Hav. reflexivity.
Qed.

(** X22. Toggling a slug never touches the other entries: a string other
    than the trimmed slug is in the list read back after the toggle exactly
    when it was in it before.  A slug that is empty after trimming changes
    nothing and reports no addition. *)
Theorem toggleWatchlist_others (slug : Val) (st : Storage) :
  let n := trim (ToString (JsOr slug (JStr []))) in
  (n <> [] ->
   forall m, m <> n ->
             (In m (readWatchlist (toggleWatchlist slug st).2) <-> In m (readWatchlist st)))
  /\ (n = [] -> toggleWatchlist slug st = (false, st)).
Proof.
  intros n. split.
  - intros Hn m Hm. destruct (available st) eqn:Hav.
    + pose proof (toggleWatchlist_read slug st) as Hread. cbv zeta in Hread. fold n in Hread.
      rewrite (Hread Hn Hav).
      destruct (indexOf (readWatchlist st) n) as [idx|] eqn:Hidx.
      * apply (delete_other _ idx n m); [apply indexOf_Some; exact Hidx | exact Hm].
      * rewrite in_app_iff. simpl. split; [intros [H | [H | []]]; [exact H | congruence] | auto].
    + rewrite toggleWatchlist_unavailable by exact Hav. reflexivity.
  - intros Hn. unfold toggleWatchlist. fold n. rewrite Hn. reflexivity.
Qed.

(** ** More of the derived slug *)

Lemma slugChars_plain (s : list N) :
  Forall (fun c => isSlugChar c = true \/ c = HYPHEN) s ->
  forallb isAscii s = true /\ map asciiLower s = s
  /\ filter (fun c => negb (isCombiningMark c)) s = s.
Proof.
  induction 1 as [|c r Hc Hr (IH1 & IH2 & IH3)]; [repeat split|].
  assert (isAscii c = true /\ asciiLower c = c /\ isCombiningMark c = false) as (H1 & H2 & H3).
  { unfold isAscii, asciiLower, isUpperAlpha, isCombiningMark.
    destruct Hc as [Hc | ->]; [|repeat split].
    unfold isSlugChar, isLowerAlpha, isDigit in Hc.
    rewrite orb_true_iff, !andb_true_iff, !N.leb_le in Hc.
    repeat split.
    - apply N.ltb_lt. lia.
    - destruct (N.leb_spec 65 c), (N.leb_spec c 90); simpl; try reflexivity. lia.
    - destruct (N.leb_spec 768 c), (N.leb_spec c 879); simpl; try reflexivity. lia. }
  split; [cbn [forallb]; rewrite H1, IH1; reflexivity|].
  split; [cbn [map]; rewrite H2, IH2; reflexivity|].
  rewrite filter_cons_True by (rewrite H3; exact I). rewrite IH3. reflexivity.
Qed.

Lemma hyphenateRuns_fixed (s : list N) :
  forall b,
    Forall (fun c => isSlugChar c = true \/ c = HYPHEN) s ->
    (forall l1 l2, s <> l1 ++ [HYPHEN; HYPHEN] ++ l2) ->
    (b = true -> head s <> Some HYPHEN) ->
    hyphenateRuns b s = s.
Proof.
  induction s as [|c r IH]; intros b Hall Hno Hb; [reflexivity|].
  apply Forall_cons in Hall as [Hc Hr].
  assert (forall l1 l2, r <> l1 ++ [HYPHEN; HYPHEN] ++ l2) as Hno'.
  { intros l1 l2 ->. apply (Hno (c :: l1) l2). reflexivity. }
  cbn [hyphenateRuns]. destruct (isSlugChar c) eqn:E.
  - f_equal. apply IH; auto; discriminate.
  - destruct Hc as [Hc | ->]; [congruence|].
    destruct b; [exfalso; apply Hb; reflexivity|].
    f_equal. apply IH; auto. intros _ Hh.
    destruct r as [|x r']; [discriminate|]. injection Hh as ->.
    apply (Hno [] r'). reflexivity.
Qed.

Lemma trimEnds_fixed (f : N -> bool) (s : list N) :
  (forall x, head s = Some x -> f x = false) ->
  (forall x, last s = Some x -> f x = false) ->
  trimEnds f s = s.
Proof.
  intros Hh Hl. unfold trimEnds.
  rewrite (dropWhile_fixed f s Hh).
  rewrite (dropWhile_fixed f (rev s)); [apply rev_involutive|].
  intros x. rewrite head_rev. apply Hl.
Qed.

(** X23. A derived slug is its own slug: [slugify] applied to what
    [slugify] returned gives it back, for every value. *)
Theorem slugify_idempotent (v : Val) : slugify (JStr (slugify v)) = slugify v.
Proof.
  destruct (slugify_shape v) as (Hchars & Hhead & Hlast & Hno).
  destruct (slugChars_plain _ Hchars) as (Hascii & Hlow & Hfilter).
  unfold slugify at 1. cbn [ToString].
  rewrite (toLowerCase_ascii _ Hascii), Hlow, (normalizeNFKD_ascii _ Hascii), Hfilter.
  rewrite (hyphenateRuns_fixed _ false Hchars Hno) by discriminate.
  apply trimEnds_fixed.
  - intros x Hx. unfold isHyphen. apply N.eqb_neq. intros ->. exact (Hhead Hx).
  - intros x Hx. unfold isHyphen. apply N.eqb_neq. intros ->. exact (Hlast Hx).
Qed.

Lemma hyphenateRuns_keeps (b : bool) (s : list N) (c : N) :
  In c s -> isSlugChar c = true -> In c (hyphenateRuns b s).
Proof.
  revert b; induction s as [|x r IH]; intros b Hin Hc; [contradiction|].
  cbn [hyphenateRuns]. destruct Hin as [-> | Hin].
  - rewrite Hc. left. reflexivity.
  - destruct (isSlugChar x); [right; auto|]. destruct b; [auto | right; auto].
Qed.

Lemma hyphenateRuns_hyphens (b : bool) (s : list N) :
  Forall (fun c => isSlugChar c = false) s ->
  Forall (fun c => isHyphen c = true) (hyphenateRuns b s).
Proof.
  revert b; induction s as [|x r IH]; intros b Hall; [constructor|].
  apply Forall_cons in Hall as [Hx Hr]. cbn [hyphenateRuns]. rewrite Hx.
  destruct b; [auto|]. constructor; [reflexivity | auto].
Qed.

Lemma dropWhile_keeps {A} (f : A -> bool) (l : list A) (c : A) :
  In c l -> f c = false -> In c (dropWhile f l).
Proof.
  induction l as [|x r IH]; intros Hin Hc; [contradiction|].
  cbn [dropWhile]. destruct (f x) eqn:E; [|exact Hin].
  destruct Hin as [-> | Hin]; [congruence | auto].
Qed.

Lemma dropWhile_all {A} (f : A -> bool) (l : list A) :
  Forall (fun x => f x = true) l -> dropWhile f l = [].
Proof.
  induction 1 as [|x r Hx Hr IH]; [reflexivity|]. cbn [dropWhile]. rewrite Hx. exact IH.
Qed.

(** X24. [slugify] returns the empty string exactly when the lower-cased,
    normalized text of the value has no character of [a-z0-9]: a name made
    of punctuation only, or written without Latin letters and digits, has
    no derived slug.  For ASCII text this is: no letter and no digit. *)
Theorem slugify_empty :
  (forall v : Val,
     slugify v = []
     <-> Forall (fun c => isSlugChar c = false)
                (normalizeNFKD (toLowerCase (ToString (orEmpty v)))))
  /\ (forall s : list N,
        forallb isAscii s = true ->
        (slugify (JStr s) = [] <-> Forall (fun c => isSlugChar (asciiLower c) = false) s)).
Proof.
  assert (forall v : Val,
     slugify v = []
     <-> Forall (fun c => isSlugChar c = false)
                (normalizeNFKD (toLowerCase (ToString (orEmpty v))))) as Hgen.
  { intros v. unfold slugify. fold (orEmpty v).
    set (text := normalizeNFKD (toLowerCase (ToString (orEmpty v)))). split.
    - intros Hempty. apply Forall_forall. intros c Hc%list_elem_of_In.
      destruct (isSlugChar c) eqn:E; [|reflexivity]. exfalso.
      assert (isCombiningMark c = false) as Hm.
      { unfold isSlugChar, isLowerAlpha, isDigit, isCombiningMark in *.
        rewrite orb_true_iff, !andb_true_iff, !N.leb_le in E.
        destruct (N.leb_spec 768 c), (N.leb_spec c 879); simpl; try reflexivity. lia. }
      assert (In c (filter (fun c => negb (isCombiningMark c)) text)) as Hf.
      { apply list_elem_of_In, list_elem_of_filter. split; [rewrite Hm; exact I|].
        apply list_elem_of_In. exact Hc. }
      apply (hyphenateRuns_keeps false) in Hf; [|exact E].
      assert (isHyphen c = false) as Hh.
      { unfold isHyphen. apply N.eqb_neq. intros ->. discriminate. }
      unfold trimEnds in Hempty.
      apply (dropWhile_keeps isHyphen) in Hf; [|exact Hh].
      apply in_rev in Hf. apply (dropWhile_keeps isHyphen) in Hf; [|exact Hh].
      apply in_rev in Hf. rewrite Hempty in Hf. contradiction.
    - intros Hall.
      assert (Forall (fun c => isSlugChar c = false)
                (filter (fun c => negb (isCombiningMark c)) text)) as Hall'.
      { apply Forall_forall. intros c [_ Hc]%list_elem_of_filter.
        rewrite Forall_forall in Hall. auto. }
      apply (hyphenateRuns_hyphens false) in Hall'.
      unfold trimEnds. rewrite (dropWhile_all _ _ Hall'). reflexivity. }
  split; [exact Hgen|].
  intros s Hs. rewrite Hgen. cbn [orEmpty ToString].
  rewrite (toLowerCase_ascii s Hs), normalizeNFKD_ascii.
  - rewrite Forall_map. reflexivity.
  - rewrite forallb_forall in *. intros c [x [<- Hx]]%in_map_iff.
    specialize (Hs x Hx). unfold isAscii, asciiLower, isUpperAlpha in *.
    destruct (_ && _) eqn:E; [|exact Hs].
    apply andb_true_iff in E. rewrite !N.leb_le in E. apply N.ltb_lt. lia.
Qed.

(** ** More of the enrichment *)

Lemma split_joined (x : list N) (r : list (list N)) :
  ~ In COMMA x -> Forall (fun y => ~ In COMMA y) r ->
  split COMMA (x ++ flat_map (fun y => str ", " ++ y) r) = x :: map (fun y => 32%N :: y) r.
Proof.
  revert x; induction r as [|y r IH]; intros x Hx Hr.
  - cbn [flat_map map]. rewrite app_nil_r. apply split_whole. exact Hx.
  - apply Forall_cons in Hr as [Hy Hr]. cbn [flat_map map].
    change (str ", " ++ y) with (COMMA :: (32%N :: y)).
    cbn [app]. rewrite (split_app_sep _ _ _ Hx).
    change (32%N :: y ++ flat_map (fun y0 => str ", " ++ y0) r)
      with ((32%N :: y) ++ flat_map (fun y0 => str ", " ++ y0) r).
    rewrite IH; [reflexivity | | exact Hr].
    intros [H | H]; [discriminate | contradiction].
Qed.

Lemma legacy_names (names : list (list N)) :
  Forall normalizedSlug names -> Forall (fun y => ~ In COMMA y) names ->
  filter nonEmpty (map trim (split COMMA (join (str ", ") names))) = names.
Proof.
  intros Hnorm Hcomma. destruct names as [|x r]; [reflexivity|].
  apply Forall_cons in Hcomma as [Hx Hr]. cbn [join].
  rewrite (split_joined x r Hx Hr).
  assert (forall l, Forall normalizedSlug l -> filter nonEmpty l = l) as Hfilter.
  { induction 1 as [|y l [Hy _] Hl IH]; [reflexivity|].
    rewrite filter_cons_True by (apply nonEmpty_true in Hy; rewrite Hy; exact I).
    rewrite IH. reflexivity. }
  assert (map trim (x :: map (fun y => 32%N :: y) r) = x :: r) as ->.
  { apply Forall_cons in Hnorm as [[_ Hx'] Hr']. cbn [map]. rewrite Hx'. f_equal.
    clear Hr. induction Hr' as [|y l [_ Hy] Hl IH]; [reflexivity|].
    cbn [map]. rewrite IH. f_equal. exact Hy. }
  apply Hfilter. exact Hnorm.
Qed.

(** X25. The two ways of naming designers agree.  For trimmed, non-empty
    names without commas: a project that gives them as the [designers]
    array and has no [designer] text gets the names joined by ", " as its
    [designer], and a project that gives that joined text as [designer] and
    no array gets the same designer items, in the same order. *)
Theorem designers_array_and_text (dm pm : gmap (list N) Person) (names : list (list N))
    (p q : Project) :
  Forall normalizedSlug names -> Forall (fun y => ~ In COMMA y) names ->
  designers p = JArr (map JStr names) -> ToBoolean (designer p) = false ->
  designers q = JUndefined -> designer q = designer' (enrichProject dm pm p) ->
  designer' (enrichProject dm pm p) = JStr (join (str ", ") names)
  /\ map item_name (designerItems (enrichProject dm pm p)) = names
  /\ designerItems (enrichProject dm pm q) = designerItems (enrichProject dm pm p).
Proof.
  intros Hnorm Hcomma Hp Hpd Hq Hqd.
  assert (designerNamesOf p = names) as Hnp.
  { unfold designerNamesOf. rewrite Hp. apply normalized_names. exact Hnorm. }
  assert (designer' (enrichProject dm pm p) = JStr (join (str ", ") names)) as Hd.
  { unfold enrichProject. cbn [designer']. fold (designerNamesOf p). rewrite Hnp.
    unfold JsOr. rewrite Hpd. reflexivity. }
  split; [exact Hd|]. split; [rewrite item_names_enrich; exact Hnp|].
  rewrite !designerItems_enrich, Hnp. f_equal.
  unfold designerNamesOf. rewrite Hq, Hqd, Hd.
  assert (ToString (JsOr (JStr (join (str ", ") names)) (JStr [])) = join (str ", ") names) as ->.
  { unfold JsOr. cbn [ToBoolean]. destruct (strEq (join (str ", ") names) []) eqn:E; [|reflexivity].
    apply strEq_spec in E. rewrite E. reflexivity. }
  apply legacy_names; assumption.
Qed.

(** ** Status badges *)

(** X26. For the status that [projectStatus] computes, the badge markup
    starts with the "JUST LAUNCHED" badge exactly when
    [projectIsJustLaunched] holds for the same project and instant. *)
Theorem statusBadge_just_launched (base : list N) (p : Project) (now : Date) :
  startsWith launchBadgeHtml (statusBadge base (projectStatus p now) (Some p) now)
  = projectIsJustLaunched p now.
Proof.
  unfold statusBadge.
  destruct (projectIsJustLaunched p now) eqn:J.
  - unfold projectIsJustLaunched in J.
    destruct (includes [str "live"; str "promo"] (projectStatus p now)) eqn:I;
      [|discriminate].
    apply includes_In in I. cbn [In] in I.
    destruct I as [<- | [<- | []]]; reflexivity.
  - rewrite projectStatus_classify. unfold classify. case_flags; reflexivity.
Qed.

(** ** The earlier revision *)

Lemma Rev1_projectStatus_dated (p : Project) (L E t : Z) :
  isoDayOf (launchDate p) = Some L ->
  isoDayOf (endDate p) = Some E ->
  ToBoolean (isPreview p) = false ->
  Rev1.projectStatus p (Some t) =
    if t <? localInstant L 12 0 0 0 then str "upcoming"
    else if localInstant E 12 0 0 0 <? t
    then (if latePledgePresent p then str "late-pledge" else str "archived")
    else if ToBoolean (isPromo p) then str "promo" else str "live".
Proof.
  intros HL HE Hp. unfold Rev1.projectStatus, latePledgePresent.
  rewrite !ToBoolean_JsOr.
  rewrite Hp, (hasIsoDate_isoDayOf_Some _ _ HL), (parseDate_iso _ _ HL), (parseDate_iso _ _ HE).
  reflexivity.
Qed.

(** X27. The earlier revision's classifier against the current one, for a
    project with ISO launch day [L] and end day [E], [L <= E], that is not
    flagged as a preview.  The two agree before the launch day starts and
    from local noon of the launch day to local noon of the end day.  On the
    morning of the launch day the earlier revision still says upcoming
    where the current one says live or promo; on the afternoon of the end
    day it already says late-pledge or archived where the current one says
    live or promo; after the end day it says what the current one says,
    except archived for pre-order. *)
Theorem projectStatus_revisions (p : Project) (L E t : Z) :
  isoDayOf (launchDate p) = Some L ->
  isoDayOf (endDate p) = Some E ->
  ToBoolean (isPreview p) = false ->
  L <= E ->
  let old := Rev1.projectStatus p (Some t) in
  let new := projectStatus p (Some t) in
  (t < localInstant L 0 0 0 0 \/ localInstant L 12 0 0 0 <= t <= localInstant E 12 0 0 0 ->
   old = new)
  /\ (localInstant L 0 0 0 0 <= t < localInstant L 12 0 0 0 ->
      old = str "upcoming" /\ liveWindow new)
  /\ (localInstant E 12 0 0 0 < t <= localInstant E 23 59 59 999 ->
      (old = str "late-pledge" \/ old = str "archived") /\ liveWindow new)
  /\ (localInstant E 23 59 59 999 < t -> old = withoutPreOrder new).
Proof.
  intros HL HE Hp HLE old new. subst old new.
  rewrite (Rev1_projectStatus_dated p L E t HL HE Hp), (projectStatus_dated p L E t HL HE Hp).
  rewrite !localInstant_val. unfold liveWindow, withoutPreOrder.
  assert (MakeTime 0 0 0 0 = 0) as -> by reflexivity.
  assert (MakeTime 12 0 0 0 = 43200000) as -> by reflexivity.
  assert (MakeTime 23 59 59 999 = 86399999) as -> by reflexivity.
  destruct (latePledgePresent p), (preOrderPresent p), (ToBoolean (isPromo p));
    case_ltb; try lia;
    repeat split; intros;
    repeat match goal with Hor : _ \/ _ |- _ => destruct Hor end;
    try lia; auto.
Qed.

(** X28. The earlier revision's enrichment against the current one, for a
    project without a [designers] array whose [designer] is empty, or one
    trimmed name without a comma: both revisions give the same
    [designerSlug].  The [publisherSlug] is the same for every project. *)
Theorem enrichProject_revisions (dm pm : gmap (list N) Person) (p : Project) :
  designers p = JUndefined ->
  ToBoolean (designer p) = false
  \/ (exists n, designer p = JStr n /\ normalizedSlug n /\ ~ In COMMA n) ->
  designerSlug (enrichProject dm pm p) = Rev1.designerSlug (Rev1.enrichProject dm pm p)
  /\ publisherSlug (enrichProject dm pm p) = Rev1.publisherSlug (Rev1.enrichProject dm pm p).
Proof.
  intros Hds Hd. split; [|reflexivity].
  unfold enrichProject, Rev1.enrichProject. cbn [designerSlug Rev1.designerSlug].
  fold (designerNamesOf p).
  destruct Hd as [Hd | (n & Hn & Hnorm & Hcomma)].
  - assert (designerNamesOf p = []) as ->.
    { unfold designerNamesOf. rewrite Hds. unfold JsOr. rewrite Hd. reflexivity. }
    rewrite Hd. reflexivity.
  - assert (ToBoolean (JStr n) = true) as Ht.
    { cbn [ToBoolean]. destruct Hnorm as [Hne _]. apply nonEmpty_true in Hne. exact Hne. }
    assert (designerNamesOf p = [n]) as ->.
    { unfold designerNamesOf. rewrite Hds, Hn.
      assert (ToString (JsOr (JStr n) (JStr [])) = n) as ->.
      { unfold JsOr. rewrite Ht. reflexivity. }
      rewrite (split_whole _ _ Hcomma). cbn [map]. destruct Hnorm as [Hne ->].
      apply nonEmpty_true in Hne.
      rewrite filter_cons_True by (rewrite Hne; exact I). reflexivity. }
    rewrite Hn, Ht. cbn [map head item_slug ToString].
    set (A := slugOf (dm !! toLowerCase n)). set (F := JStr (slugify (JStr n))).
    unfold JsOr. destruct (ToBoolean A) eqn:EA; rewrite ?EA; [reflexivity|].
    destruct (ToBoolean F) eqn:EF; rewrite ?EF, ?EA; reflexivity.
Qed.

(** X29. The earlier revision's archive comparator against the current
    one.  For two projects with ISO dates that are not previews, carry no
    pre-order flag or URL and whose end days are over at the clock reading
    [t], the two comparators return numbers of the same sign, so a sort
    orders such projects the same way under either revision. *)
Theorem byArchivePriority_revisions (t : Z) (a b : Project) (La Ea Lb Eb : Z) :
  isoDayOf (launchDate a) = Some La -> isoDayOf (endDate a) = Some Ea ->
  isoDayOf (launchDate b) = Some Lb -> isoDayOf (endDate b) = Some Eb ->
  ToBoolean (isPreview a) = false -> ToBoolean (isPreview b) = false ->
  preOrderPresent a = false -> preOrderPresent b = false ->
  La <= Ea -> Lb <= Eb ->
  localInstant Ea 23 59 59 999 < t -> localInstant Eb 23 59 59 999 < t ->
  option_map Z.sgn (Rev1.byArchivePriority t t a b)
  = option_map Z.sgn (byArchivePriority t t a b).
Proof.
  intros HLa HEa HLb HEb Hpa Hpb Hoa Hob Hlea Hleb Hta Htb.
  unfold Rev1.byArchivePriority, byArchivePriority, Rev1.rank, rank.
  rewrite (Rev1_projectStatus_dated a La Ea t HLa HEa Hpa),
          (Rev1_projectStatus_dated b Lb Eb t HLb HEb Hpb),
          (projectStatus_dated a La Ea t HLa HEa Hpa),
          (projectStatus_dated b Lb Eb t HLb HEb Hpb).
  rewrite Hoa, Hob. rewrite !localInstant_val in *.
  assert (MakeTime 0 0 0 0 = 0) as E0 by reflexivity.
  assert (MakeTime 12 0 0 0 = 43200000) as E1 by reflexivity.
  assert (MakeTime 23 59 59 999 = 86399999) as E2 by reflexivity.
  rewrite E0, E1, E2 in *.
  destruct (latePledgePresent a), (latePledgePresent b); case_ltb; try lia; reflexivity.
Qed.

End Coverage.

(** * The reference host satisfies the laws *)

Section RefHostLaws.
Import RefHost.

Lemma run_escapeUnit (c : N) (cur : list N) (items : list (list N)) (rest : list N) :
  run InStr cur items (escapeUnit c ++ rest) = run InStr (c :: cur) items rest.
Proof.
  destruct (N.ltb_spec c 32) as [Hlt|Hge].
  - assert ((c = 0 \/ c = 1 \/ c = 2 \/ c = 3 \/ c = 4 \/ c = 5 \/ c = 6 \/ c = 7 \/ c = 8 \/ c = 9 \/ c = 10 \/ c = 11 \/ c = 12 \/ c = 13 \/ c = 14 \/ c = 15 \/ c = 16 \/ c = 17 \/ c = 18 \/ c = 19 \/ c = 20 \/ c = 21 \/ c = 22 \/ c = 23 \/ c = 24 \/ c = 25 \/ c = 26 \/ c = 27 \/ c = 28 \/ c = 29 \/ c = 30 \/ c = 31)%N) as Hc by lia.
    decompose [or] Hc; subst c; reflexivity.
  - unfold escapeUnit.
    destruct (N.eqb_spec c 34) as [->|H34]; [reflexivity|].
    destruct (N.eqb_spec c 92) as [->|H92]; [reflexivity|].
    repeat match goal with
           | |- context [(c =? ?k)%N] => destruct (N.eqb_spec c k); [lia|]
           end.
    destruct (N.ltb_spec c 32); [lia|].
    cbn [app run].
    destruct (N.eqb_spec c 34); [contradiction|].
    destruct (N.eqb_spec c 92); [contradiction|].
    destruct (N.ltb_spec c 32); [lia|]. reflexivity.
Qed.

Lemma run_body (s : list N) :
  forall cur items rest,
    run InStr cur items (flat_map escapeUnit s ++ rest) = run InStr (rev s ++ cur) items rest.
Proof.
  induction s as [|c s IH]; intros cur items rest; [reflexivity|].
  cbn [flat_map rev]. rewrite <- !app_assoc, run_escapeUnit, IH. reflexivity.
Qed.

Lemma run_quote (s : list N) (items : list (list N)) (rest : list N) :
  run AfterComma [] items (quote s ++ rest) = run AfterStr [] (s :: items) rest
  /\ run AfterOpen [] items (quote s ++ rest) = run AfterStr [] (s :: items) rest.
Proof.
  unfold quote. cbn [app run]. change (DQUOTE =? 34)%N with true.
  change (DQUOTE =? 93)%N with false. cbv iota.
  rewrite <- !app_assoc, run_body. cbn [app run].
  change (DQUOTE =? 34)%N with true. cbv iota.
  rewrite app_nil_r, rev_involutive. auto.
Qed.

Lemma run_tail (r : list (list N)) :
  forall items,
    run AfterStr [] items (flat_map (fun y => [COMMA] ++ quote y) r ++ [93%N])
    = Some (rev items ++ r).
Proof.
  induction r as [|y r IH]; intros items.
  - cbn. rewrite app_nil_r. reflexivity.
  - cbn [flat_map]. rewrite <- !app_assoc. cbn [app run].
    change (COMMA =? 93)%N with false. change (COMMA =? 44)%N with true. cbv iota.
    rewrite (proj1 (run_quote y items _)), IH. cbn [rev]. rewrite <- app_assoc. reflexivity.
Qed.

Lemma stringify_strings (l : list (list N)) :
  stringify (JArr (map JStr l))
  = 91%N :: match l with
            | [] => []
            | x :: r => quote x ++ flat_map (fun y => [COMMA] ++ quote y) r
            end ++ [93%N].
Proof.
  cbn [stringify]. f_equal. f_equal.
  destruct l as [|x r]; [reflexivity|]. cbn [map join stringify]. f_equal.
  induction r as [|y r IH]; [reflexivity|]. cbn [map flat_map stringify]. rewrite IH. reflexivity.
Qed.

Lemma parse_stringify (l : list (list N)) :
  parse (stringify (JArr (map JStr l))) = Some (JArr (map JStr l)).
Proof.
  rewrite stringify_strings. unfold parse.
  destruct l as [|x r].
  - reflexivity.
  - cbn [run app]. change (91 =? 91)%N with true. cbv iota.
    rewrite <- app_assoc, (proj2 (run_quote x [] _)), run_tail. reflexivity.
Qed.

Lemma refHost_laws : JsHostLaws refHost.
Proof.
  split.
  - vm_compute. split; reflexivity.
  - reflexivity.
  - reflexivity.
  - intros elems. discriminate.
  - exact parse_stringify.
Qed.

End RefHostLaws.

(** * The theorems on the reference host *)

Section Witnesses.
Import Sample.


Lemma byEndAsc_order_witness :
  let sorted := @Array_sort (@Project refHost) byEndAsc [undated; march; february] in
  Permutation [undated; march; february] sorted
  /\ exists vs ivs,
       sorted = vs ++ ivs /\ Forall validEnd vs /\ Forall (fun p => ~ validEnd p) ivs
       /\ StronglySorted endsNoLater vs.
Proof.
  exact (proj1 (proj2 (proj2 (proj2 (@byEndAsc_order refHost refHost_laws))))
           [undated; march; february]).
Defined.

Lemma byArchivePriority_order_witness :
  exists v, @byArchivePriority refHost (at_ 2025 3 1 0 0) (at_ 2025 3 1 0 0) marchLate marchPre = Some v
            /\ v < 0.
Proof.
  apply (proj1 (proj2 (proj2 (@byArchivePriority_order refHost
                  (at_ 2025 3 1 0 0) (at_ 2025 3 1 0 0) marchLate marchPre))));
    reflexivity.
Defined.

Lemma projectIsJustLaunched_iff_witness :
  @projectStatus refHost march (Some (at_ 2025 2 10 8 0)) = str "live"
  /\ @projectIsJustLaunched refHost march (Some (at_ 2025 2 10 8 0)) = true.
Proof.
  exact (proj2 (@projectIsJustLaunched_iff refHost refHost_laws) march
           eq_refl eq_refl eq_refl eq_refl).
Defined.


Lemma enrichProjects_resolves_witness :
  map designerItems (@enrichProjects refHost (content []))
  = [[{| item_name := str "Ada Lovelace"; item_slug := JStr (str "ada-lovelace") |}]]
  /\ map designerItems (@enrichProjects refHost (content [ada]))
     = [[{| item_name := str "Ada Lovelace"; item_slug := JStr (str "ada-l") |}]].
Proof.
  destruct (proj2 (proj2 (proj2 (@enrichProjects_resolves refHost refHost_laws))) march ada None
              eq_refl eq_refl eq_refl eq_refl) as [_ H2].
  split; [reflexivity | exact H2].
Defined.


Lemma hasIsoDate_syntactic_witness :
  In (@projectStatus refHost rolled (Some (at_ 2026 1 9 12 0))) datedStatuses
  /\ @projectStatus refHost rolled (Some (at_ 2026 1 9 12 0)) <> str "preview".
Proof.
  apply (proj1 (proj2 (@hasIsoDate_syntactic refHost refHost_laws)) rolled
           (Some (at_ 2026 1 9 12 0)) (str "2025-13-40")).
  - exists 50%N, 48%N, 50%N, 53%N, 49%N, 51%N, 52%N, 48%N.
    split; [reflexivity|]. repeat constructor.
  - left. reflexivity.
  - reflexivity.
Defined.

(** ** Evaluations *)

Example at_epoch : at_ 2025 2 10 8 0 = 1741590000000.
Proof. reflexivity. Qed.

Example march_upcoming :
  @projectStatus refHost march (Some (at_ 2025 2 9 23 59)) = str "upcoming".
Proof. reflexivity. Qed.

Example march_live :
  @projectStatus refHost march (Some (at_ 2025 2 17 23 59)) = str "live".
Proof. reflexivity. Qed.

Example march_archived :
  @projectStatus refHost march (Some (at_ 2025 2 18 0 0)) = str "archived".
Proof. reflexivity. Qed.

Example marchLate_late_pledge :
  @projectStatus refHost marchLate (Some (at_ 2025 2 18 0 0)) = str "late-pledge".
Proof. reflexivity. Qed.

Example undated_preview :
  @projectStatus refHost undated (Some (at_ 2025 2 18 0 0)) = str "preview".
Proof. reflexivity. Qed.

Example march_invalid_now : @projectStatus refHost march None = str "live".
Proof. reflexivity. Qed.

Example march_not_just_launched_next_day :
  @projectIsJustLaunched refHost march (Some (at_ 2025 2 11 0 0)) = false.
Proof. reflexivity. Qed.

Example march_ends_today :
  @countdownChip refHost (str "live") march (Some (at_ 2025 2 17 13 0))
  = chip (str "live") (str "Ends today").
Proof. reflexivity. Qed.

Example march_ends_in_3 :
  @countdownChip refHost (str "live") march (Some (at_ 2025 2 14 13 0))
  = chip (str "live") (str "Ends in 3d").
Proof. reflexivity. Qed.

Example archived_no_chip :
  @countdownChip refHost (str "archived") march (Some (at_ 2025 2 19 0 0)) = [].
Proof. reflexivity. Qed.

Example slugify_punctuation :
  @slugify refHost (JStr (str "  --Ada  & Lovelace!! ")) = str "ada-lovelace".
Proof. reflexivity. Qed.

Example sort_three :
  @Array_sort (@Project refHost) byEndAsc [undated; march; february] = [february; march; undated].
Proof. reflexivity. Qed.

Example read_normalizes :
  @readWatchlist refHost
    {| available := true;
       items := {[ WATCHLIST_STORAGE_KEY :=
                     RefHost.stringify
                       (JArr [JStr (str " a"); JStr (str "a"); JStr []; JStr (str "b ")]) ]} |}
  = [str "a"; str "b"].
Proof. reflexivity. Qed.

Example read_not_json :
  @readWatchlist refHost
    {| available := true; items := {[ WATCHLIST_STORAGE_KEY := str "oops" ]} |} = [].
Proof. reflexivity. Qed.

(** ** Where the claims as stated fail *)

(** C8 as stated: an entry of the registry matches "Ada Lovelace", yet
    the slug given is the derived one, not the (empty) slug of the
    entry. *)
Lemma enrichProjects_empty_slug_counterexample :
  @registryMatch refHost [adaNoSlug] (str "Ada Lovelace") = Some adaNoSlug
  /\ map designerItems (@enrichProjects refHost (content [adaNoSlug]))
     = [[{| item_name := str "Ada Lovelace"; item_slug := JStr (str "ada-lovelace") |}]]
  /\ JStr (str "ada-lovelace") <> slug adaNoSlug.
Proof.
  split; [reflexivity|]. split; [reflexivity|]. discriminate.
Defined.


(** ** Instances of the further properties *)

Lemma escapeHtml_safe_witness :
  @escapeHtml refHost (JStr (str "Catan 2")) = str "Catan 2".
Proof. exact (proj2 (@escapeHtml_safe refHost) (str "Catan 2") eq_refl). Defined.

Lemma withBase_paths_witness :
  @withBase refHost (str "/launchpad") (JStr (str "https://example.org/a"))
  = JStr (str "https://example.org/a").
Proof.
  exact (proj1 (@withBase_paths refHost (str "/launchpad") (str "https://example.org/a")) eq_refl).
Defined.

Lemma computeBasePath_segment_witness :
  computeBasePath (str "pnp.github.io") (str "/launchpad/live.html") = str "/launchpad".
Proof.
  apply (proj1 (proj2 (proj2 (@computeBasePath_segment refHost (str "pnp.github.io")
                                (str "/launchpad/live.html"))))
           (str "launchpad") (str "/live.html") eq_refl).
  - discriminate.
  - vm_compute. intuition discriminate.
  - reflexivity.
  - right. reflexivity.
Defined.



Lemma isSameLocalDay_equivalence_witness :
  @isSameLocalDay refHost (Some (at_ 2025 2 10 8 0)) (Some (at_ 2025 2 10 21 30)) = true.
Proof.
  apply (proj2 (proj2 (proj2 (proj2 (@isSameLocalDay_equivalence refHost refHost_laws))))
           (at_ 2025 2 10 8 0) (at_ 2025 2 10 21 30));
    [vm_compute; discriminate | vm_compute; discriminate | reflexivity].
Defined.

Lemma projectStatus_progress_witness :
  @projectStatus refHost march (Some (at_ 2025 2 20 9 0))
  = @projectStatus refHost march (Some (at_ 2025 2 12 9 0))
  \/ closedWindow (@projectStatus refHost march (Some (at_ 2025 2 20 9 0))).
Proof.
  assert (at_ 2025 2 12 9 0 <= at_ 2025 2 20 9 0) as H by (vm_compute; discriminate).
  apply (proj2 (proj2 (proj2 (@projectStatus_progress refHost march _ _ H)))).
  left. reflexivity.
Defined.

Lemma projectStatus_missing_date_witness :
  liveWindow (@projectStatus refHost openEnded (Some (at_ 2031 0 1 0 0))).
Proof.
  apply (proj1 (proj2 (proj2 (@projectStatus_missing_date refHost refHost_laws openEnded)))
           (MakeDay 2025 2 10) (at_ 2031 0 1 0 0)); try reflexivity.
  vm_compute. discriminate.
Defined.





Lemma byLaunchDesc_order_witness :
  let sorted := @Array_sort (@Project refHost) byLaunchDesc [undated; february; march] in
  Permutation [undated; february; march] sorted
  /\ exists vs ivs,
       sorted = vs ++ ivs /\ Forall validLaunch vs
       /\ Forall (fun p => ~ validLaunch p) ivs
       /\ StronglySorted launchesNoEarlier vs.
Proof.
  exact (proj2 (proj2 (@byLaunchDesc_order refHost refHost_laws)) [undated; february; march]).
Defined.


Lemma byArchivePriority_sorts_witness :
  let now := at_ 2025 3 1 0 0 in
  let sorted := @Array_sort (@Project refHost) (byArchivePriority now now)
                  [february; marchPre; marchLate] in
  Permutation [february; marchPre; marchLate] sorted
  /\ StronglySorted (archiveOrder now) sorted.
Proof.
  apply (@byArchivePriority_sorts refHost refHost_laws). repeat constructor.
Defined.

Lemma byArchivePriority_clock_witness :
  @byArchivePriority refHost (at_ 2025 3 1 0 0) (at_ 2025 3 1 0 1) marchLate marchPre
  = @byArchivePriority refHost (at_ 2025 2 18 0 0) (at_ 2025 2 18 0 0) marchLate marchPre.
Proof.
  apply (@byArchivePriority_clock refHost (at_ 2025 2 18 0 0) (at_ 2025 3 1 0 0)
           (at_ 2025 3 1 0 1) marchLate marchPre).
  - right. left. reflexivity.
  - right. right. reflexivity.
  - vm_compute. discriminate.
  - vm_compute. discriminate.
Defined.

Lemma isWatchlisted_toggle_witness :
  @isWatchlisted refHost (JStr (str "foo"))
    (@toggleWatchlist refHost (JStr (str "foo")) emptyStorage).2
  = negb (@isWatchlisted refHost (JStr (str "foo")) emptyStorage).
Proof.
  apply (proj1 (@isWatchlisted_toggle refHost refHost_laws) (str "foo") emptyStorage);
    [split; [discriminate | reflexivity] | reflexivity].
Defined.

Lemma clearWatchlist_empties_witness :
  (@toggleWatchlist refHost (JStr (str "foo")) (@clearWatchlist refHost savedStorage)).1 = true.
Proof.
  apply (proj2 (proj2 (@clearWatchlist_empties refHost refHost_laws savedStorage))).
  vm_compute. discriminate.
Defined.

Lemma readWatchlist_normal_form_witness :
  @readWatchlist refHost (@writeWatchlist refHost (@readWatchlist refHost savedStorage) savedStorage)
  = @readWatchlist refHost savedStorage
  /\ Forall normalizedSlug (@readWatchlist refHost savedStorage)
  /\ NoDup (@readWatchlist refHost savedStorage).
Proof. exact (@readWatchlist_normal_form refHost refHost_laws savedStorage). Defined.

Lemma toggleWatchlist_others_witness :
  In (str "foo") (@readWatchlist refHost (@toggleWatchlist refHost (JStr (str "bar")) savedStorage).2)
  <-> In (str "foo") (@readWatchlist refHost savedStorage).
Proof.
  apply (proj1 (@toggleWatchlist_others refHost refHost_laws (JStr (str "bar")) savedStorage));
    vm_compute; discriminate.
Defined.

Lemma slugify_idempotent_witness :
  @slugify refHost (JStr (@slugify refHost (JStr (str "Ada Lovelace!"))))
  = @slugify refHost (JStr (str "Ada Lovelace!")).
Proof. exact (@slugify_idempotent refHost refHost_laws (JStr (str "Ada Lovelace!"))). Defined.

Lemma slugify_empty_witness : @slugify refHost (JStr (str "?! ...")) = [].
Proof.
  apply (proj2 (proj2 (@slugify_empty refHost refHost_laws) (str "?! ...") eq_refl)).
  repeat constructor.
Defined.

Lemma designers_array_and_text_witness :
  @designer' refHost (enrichProject ∅ ∅ team) = JStr (str "Ada Lovelace, Grace Hopper")
  /\ map item_name (@designerItems refHost (enrichProject ∅ ∅ team)) = teamNames
  /\ @designerItems refHost (enrichProject ∅ ∅ teamText)
     = @designerItems refHost (enrichProject ∅ ∅ team).
Proof.
  apply (@designers_array_and_text refHost ∅ ∅ teamNames team teamText);
    try reflexivity.
  - repeat constructor; discriminate.
  - repeat constructor; vm_compute; intuition discriminate.
Defined.

Lemma projectStatus_revisions_witness :
  @Rev1.projectStatus refHost march (Some (at_ 2025 2 10 8 0)) = str "upcoming"
  /\ liveWindow (@projectStatus refHost march (Some (at_ 2025 2 10 8 0))).
Proof.
  assert (MakeDay 2025 2 10 <= MakeDay 2025 2 17) as Hle by (vm_compute; discriminate).
  apply (proj1 (proj2 (@projectStatus_revisions refHost refHost_laws march
                         (MakeDay 2025 2 10) (MakeDay 2025 2 17) (at_ 2025 2 10 8 0)
                         eq_refl eq_refl eq_refl Hle))).
  vm_compute. split; [discriminate | reflexivity].
Defined.

Lemma enrichProject_revisions_witness :
  @designerSlug refHost (enrichProject ∅ ∅ march)
  = @Rev1.designerSlug refHost (Rev1.enrichProject ∅ ∅ march)
  /\ @publisherSlug refHost (enrichProject ∅ ∅ march)
     = @Rev1.publisherSlug refHost (Rev1.enrichProject ∅ ∅ march).
Proof.
  apply (@enrichProject_revisions refHost ∅ ∅ march eq_refl).
  right. exists (str "Ada Lovelace").
  split; [reflexivity|]. split; [split; [discriminate | reflexivity]|].
  vm_compute. intuition discriminate.
Defined.

Lemma byArchivePriority_revisions_witness :
  option_map Z.sgn (@Rev1.byArchivePriority refHost (at_ 2025 3 1 0 0) (at_ 2025 3 1 0 0)
                      marchLate february)
  = option_map Z.sgn (@byArchivePriority refHost (at_ 2025 3 1 0 0) (at_ 2025 3 1 0 0)
                        marchLate february).
Proof.
  apply (@byArchivePriority_revisions refHost refHost_laws (at_ 2025 3 1 0 0) marchLate february
           (MakeDay 2025 2 10) (MakeDay 2025 2 17) (MakeDay 2025 1 1) (MakeDay 2025 1 20));
    try reflexivity; vm_compute; discriminate.
Defined.

End Witnesses.
